(** * llama_jni.cpp: the handle registry and the stub intent classifier

    A shallow embedding of [app/src/main/cpp/llama_jni.cpp], the JNI bridge
    of the to-do application, and the properties of its handle table and of
    the canned JSON replies of its generation stub.

    Conventions of the embedding:
    - a [jstring] is the byte string [GetStringUTFChars] hands to the C++
      code (modified UTF-8, which holds no zero byte, so that building a
      [std::string] from it and handing [c_str()] back keep every byte);
      a [std::string] is a [string], a list of 8-bit characters;
    - [jlong] and [jint] are [Z]; the one arithmetic operation on a [jlong],
      [g_next_handle++], is written with its 64-bit wrap-around;
    - [size_t] positions returned by [std::string::find] are [option nat],
      [None] standing for [std::string::npos];
    - the globals [g_contexts] and [g_next_handle] and the calls made to
      the Android log form the state threaded through every JNI entry
      point; [std::lock_guard] has no effect on a sequential run and is
      left out;
    - [std::unordered_map] is an interface ([UnorderedMap]): the C++
      standard fixes what [find], [operator[]], [erase], [clear], [empty]
      and [begin] return, but not the iteration order. *)

From Stdlib Require Import ZArith List String Ascii Bool Arith Lia.
From Stdlib Require Import DecimalString.
Import ListNotations.

Local Open Scope string_scope.

(** ** C strings *)

(** The double-quote character, code 34. *)
Definition dquote : ascii := Eval cbv in ascii_of_nat 34.

(** The backslash character, code 92. *)
Definition backslash : ascii := Eval cbv in ascii_of_nat 92.

(** String literals of the C++ source contain many escaped double quotes.
    They are written here with a backquote in place of each escaped double
    quote; [cstr] puts the double quotes back.  No literal of the source contains a
    backquote. *)
Fixpoint cstr (s : string) : string :=
  match s with
  | EmptyString => EmptyString
  | String c s' =>
      String (if Ascii.eqb c "`"%char then dquote else c) (cstr s')
  end.

(** [tolower] of the C locale: only the 26 upper-case letters move. *)
Definition tolower (c : ascii) : ascii :=
  let n := nat_of_ascii c in
  if (65 <=? n)%nat && (n <=? 90)%nat then ascii_of_nat (n + 32) else c.

(** [for (auto& c : lowerPrompt) c = tolower(c);] *)
Fixpoint to_lower (s : string) : string :=
  match s with
  | EmptyString => EmptyString
  | String c s' => String (tolower c) (to_lower s')
  end.

(** [needle] is a prefix of [s]. *)
Fixpoint starts_with (needle s : string) : bool :=
  match needle with
  | EmptyString => true
  | String a needle' =>
      match s with
      | EmptyString => false
      | String b s' => Ascii.eqb a b && starts_with needle' s'
      end
  end.

(** The suffix of [s] from position [n]. *)
Fixpoint drop (n : nat) (s : string) : string :=
  match n, s with
  | O, _ => s
  | S _, EmptyString => EmptyString
  | S n', String _ s' => drop n' s'
  end.

(** The first [n] characters of [s]. *)
Fixpoint take (n : nat) (s : string) : string :=
  match n, s with
  | O, _ => EmptyString
  | S _, EmptyString => EmptyString
  | S n', String c s' => String c (take n' s')
  end.

(** First occurrence of [needle] in [s], where the first character of [s]
    has index [i]. *)
Fixpoint find_at (needle s : string) (i : nat) : option nat :=
  if starts_with needle s then Some i
  else match s with
       | EmptyString => None
       | String _ s' => find_at needle s' (S i)
       end.

(** [s.find(needle, pos)]: the least index [>= pos] at which [needle]
    occurs, [npos] when there is none or when [pos > s.size()]. *)
Definition find (s needle : string) (pos : nat) : option nat :=
  if (pos <=? length s)%nat then find_at needle (drop pos s) pos else None.

(** [s.find(c, pos)] for a single character. *)
Definition find_char (s : string) (c : ascii) (pos : nat) : option nat :=
  find s (String c EmptyString) pos.

(** [quoteStart + 1] in [size_t] arithmetic: [npos] is the largest
    [size_t], so [npos + 1] wraps around to 0. *)
Definition size_succ (i : option nat) : nat :=
  match i with
  | Some i => S i
  | None => O
  end.

(** [s.substr(pos, n)] for [pos <= s.size()]: at most [n] characters from
    position [pos].  (For [pos > s.size()] the C++ throws; lemma
    [extract_quoted_in_range] shows that the callers never get there.) *)
Definition substr (s : string) (pos n : nat) : string :=
  take n (drop pos s).

(** [s.find(needle) != std::string::npos] *)
Definition contains (s needle : string) : bool :=
  match find s needle 0 with
  | Some _ => true
  | None => false
  end.

(** ** The generation stub (lines 151 to 215 of the source) *)

(** The heuristic that the three title-carrying branches repeat word for
    word (DQUOTE stands for the character literal of the double quote):
<<
    std::string name = dflt;
    size_t quoteStart = promptText.find(DQUOTE);
    size_t quoteEnd = promptText.find(DQUOTE, quoteStart + 1);
    if (quoteStart != npos && quoteEnd != npos)
        name = promptText.substr(quoteStart + 1, quoteEnd - quoteStart - 1);
>> *)
Definition extract_quoted (promptText dflt : string) : string :=
  let quoteStart := find_char promptText dquote 0 in
  let quoteEnd := find_char promptText dquote (size_succ quoteStart) in
  match quoteStart, quoteEnd with
  | Some qs, Some qe => substr promptText (qs + 1) (qe - qs - 1)
  | _, _ => dflt
  end.

Definition create_goal_response (goalName : string) : string :=
  cstr "{`action`:`create_goal`,`message`:`I'll create a goal for " ++ goalName ++
  cstr "`,`data`:{`goalTitle`:`" ++ goalName ++
  cstr "`,`durationMonths`:3,`dailyMinutes`:30}}".

Definition create_task_response (taskName : string) : string :=
  cstr "{`action`:`create_task`,`message`:`I'll add the task: " ++ taskName ++
  cstr "`,`data`:{`taskTitle`:`" ++ taskName ++
  cstr "`,`dueDate`:`today`,`minutes`:30}}".

Definition complete_task_response (taskName : string) : string :=
  cstr "{`action`:`complete_task`,`message`:`Great job! I'll mark that as complete.`,`data`:{`taskTitle`:`" ++ taskName ++ cstr "`}}".

Definition list_response : string := Eval cbv in
  cstr "{`action`:`reply`,`message`:`Here are your current items. You can ask me to create goals or add tasks!`,`data`:{}}".

Definition help_response : string := Eval cbv in
  cstr "{`action`:`reply`,`message`:`I can help you manage goals and tasks! Try saying: 'Create a goal to learn Python' or 'Add task review notes tomorrow'`,`data`:{}}".

Definition delete_response : string := Eval cbv in
  cstr "{`action`:`reply`,`message`:`To delete an item, please specify exactly which goal or task you want to remove.`,`data`:{}}".

Definition progress_response : string := Eval cbv in
  cstr "{`action`:`show_progress`,`message`:`Let me show you your progress summary!`,`data`:{}}".

Definition default_response : string := Eval cbv in
  cstr "{`action`:`reply`,`message`:`I'm your local AI assistant running on-device! I can help you create goals, add tasks, and track your progress. What would you like to do?`,`data`:{}}".

(** The [if ... else if ...] chain of [LlamaNative.generate] that turns the
    prompt into [response]. *)
Definition classify (promptText : string) : string :=
  let lowerPrompt := to_lower promptText in
  if contains lowerPrompt "create" && contains lowerPrompt "goal" then
    create_goal_response (extract_quoted promptText "New Goal")
  else if contains lowerPrompt "add" && contains lowerPrompt "task" then
    create_task_response (extract_quoted promptText "New Task")
  else if contains lowerPrompt "list" || contains lowerPrompt "show" then
    list_response
  else if contains lowerPrompt "help" then
    help_response
  else if contains lowerPrompt "complete" || contains lowerPrompt "done"
          || contains lowerPrompt "finish" then
    complete_task_response (extract_quoted promptText "task")
  else if contains lowerPrompt "delete" || contains lowerPrompt "remove" then
    delete_response
  else if contains lowerPrompt "progress" || contains lowerPrompt "how am i"
          || contains lowerPrompt "status" then
    progress_response
  else
    default_response.

(** ** JNI scalar types *)

Definition jlong := Z.
Definition jint := Z.

(** A [jfloat] is only ever passed along; it is kept as its IEEE-754
    binary32 bit pattern. *)
Definition jfloat := Z.

(** The literal [0.9f]. *)
Definition float_0_9 : jfloat := 0x3F666666%Z.

(** A [jobject] is an opaque reference. *)
Definition jobject := Z.

(** Two's-complement wrap-around of a 64-bit signed integer. *)
Definition wrap64 (z : Z) : Z := ((z + 2 ^ 63) mod 2 ^ 64 - 2 ^ 63)%Z.

Definition INT64_MAX : Z := (2 ^ 63 - 1)%Z.

(** [std::to_string(int)] *)
Definition to_string (z : Z) : string := NilZero.string_of_int (Z.to_int z).

(** ** Model contexts *)

Record ModelContext : Type := mkModelContext {
  modelPath : string;
  isLoaded : bool;
  contextSize : Z;
  numThreads : Z
}.

(** The constructor [ModelContext(const std::string& path)]. *)
Definition ModelContext_new (path : string) : ModelContext :=
  {| modelPath := path; isLoaded := true; contextSize := 2048; numThreads := 4 |}.

(** ** [std::unordered_map<jlong, V>]

    The operations the source uses and what the C++ standard says of
    them.  [um_begin] is the element [begin()] points to; which element of
    a map with several entries that is, the standard does not say. *)
Class UnorderedMap (V M : Type) : Type := {
  (** the empty map a static initialiser constructs *)
  um_new : M;
  (** [m.find(k)]: the mapped value, [None] for [m.end()] *)
  um_find : Z -> M -> option V;
  (** [m[k] = v] *)
  um_assign : Z -> V -> M -> M;
  (** [m.erase(m.find(k))] for a key that is present *)
  um_erase : Z -> M -> M;
  (** [m.clear()] *)
  um_clear : M -> M;
  (** [m.empty()] *)
  um_empty : M -> bool;
  (** [*m.begin()], [None] when [m.begin() == m.end()] *)
  um_begin : M -> option (Z * V);
  um_find_new : forall k, um_find k um_new = None;
  um_find_assign : forall k k' v m,
    um_find k' (um_assign k v m) = if Z.eqb k' k then Some v else um_find k' m;
  um_find_erase : forall k k' m,
    um_find k' (um_erase k m) = if Z.eqb k' k then None else um_find k' m;
  um_find_clear : forall k m, um_find k (um_clear m) = None;
  um_begin_find : forall m k v, um_begin m = Some (k, v) -> um_find k m = Some v;
  um_begin_none : forall m, um_begin m = None -> forall k, um_find k m = None;
  um_empty_begin : forall m, um_empty m = true <-> um_begin m = None
}.

(** ** What the native code does to the outside *)

Inductive LogPriority : Type :=
  | ANDROID_LOG_DEBUG
  | ANDROID_LOG_INFO
  | ANDROID_LOG_ERROR.

(** An argument of a [printf]-style log call. *)
Inductive LogArg : Type :=
  | ArgStr (s : string)
  | ArgInt (z : Z).

(** The calls that leave the library: a line handed to
    [__android_log_print] under the tag [LlamaInference], or a method
    called on a callback object. *)
Inductive Effect : Type :=
  | LogPrint (prio : LogPriority) (fmt : string) (args : list LogArg)
  | CallbackCall (callback : jobject) (text : string).

Definition is_callback_call (e : Effect) : bool :=
  match e with
  | CallbackCall _ _ => true
  | LogPrint _ _ _ => false
  end.

(** ** The process state and the JNI entry points *)

Section Bridge.

Context {M : Type} {UM : UnorderedMap ModelContext M}.

(** The two globals of the file and the effects performed so far (oldest
    first). *)
Record World : Type := mkWorld {
  g_contexts : M;
  g_next_handle : jlong;
  effects : list Effect
}.

(** The state after static initialisation. *)
Definition initial_world : World :=
  {| g_contexts := um_new; g_next_handle := 1%Z; effects := [] |}.

(** A JNI function: it reads and updates the globals and returns a value. *)
Definition JNI (A : Type) : Type := World -> A * World.

Definition ret {A : Type} (a : A) : JNI A := fun w => (a, w).

Definition bind {A B : Type} (m : JNI A) (k : A -> JNI B) : JNI B :=
  fun w => let (a, w') := m w in k a w'.

Notation "x <- m ;; k" := (bind m (fun x => k))
  (at level 61, m at next level, right associativity).
Notation "m ;;; k" := (bind m (fun _ => k))
  (at level 61, right associativity).

Definition emit (e : Effect) : JNI unit :=
  fun w => (tt, {| g_contexts := g_contexts w;
                   g_next_handle := g_next_handle w;
                   effects := (effects w ++ [e])%list |}).

Definition LOGI (fmt : string) (args : list LogArg) : JNI unit :=
  emit (LogPrint ANDROID_LOG_INFO fmt args).
Definition LOGE (fmt : string) (args : list LogArg) : JNI unit :=
  emit (LogPrint ANDROID_LOG_ERROR fmt args).
Definition LOGD (fmt : string) (args : list LogArg) : JNI unit :=
  emit (LogPrint ANDROID_LOG_DEBUG fmt args).

(** Reading [g_contexts]. *)
Definition contexts : JNI M := fun w => (g_contexts w, w).

(** Replacing [g_contexts] by the result of a container operation. *)
Definition update_contexts (f : M -> M) : JNI unit :=
  fun w => (tt, {| g_contexts := f (g_contexts w);
                   g_next_handle := g_next_handle w;
                   effects := effects w |}).

(** [static jlong allocateHandle() { return g_next_handle++; }] *)
Definition allocateHandle : JNI jlong :=
  fun w => (g_next_handle w,
            {| g_contexts := g_contexts w;
               g_next_handle := wrap64 (g_next_handle w + 1);
               effects := effects w |}).

Definition invalid_context_response : string := Eval cbv in
  cstr "{`action`:`reply`,`message`:`Error: Model not loaded`,`data`:{}}".

Definition no_model_response : string := Eval cbv in
  cstr "{`action`:`reply`,`message`:`No model loaded. Please download a model first.`,`data`:{}}".

(** [Java_com_example_todoapp_llm_LlamaNative_initModel] *)
Definition LlamaNative_initModel (modelPath : string) : JNI jlong :=
  LOGI "LlamaNative.initModel called with path: %s" [ArgStr modelPath] ;;;
  let ctx := ModelContext_new modelPath in
  handle <- allocateHandle ;;
  update_contexts (um_assign handle ctx) ;;;
  LOGI "Model initialized with handle: %lld" [ArgInt handle] ;;;
  ret handle.

(** [Java_com_example_todoapp_llm_LlamaNative_generate] *)
Definition LlamaNative_generate (ctxPtr : jlong) (prompt : string)
    (maxTokens : jint) : JNI string :=
  LOGI "LlamaNative.generate called - handle: %lld, maxTokens: %d"
       [ArgInt ctxPtr; ArgInt maxTokens] ;;;
  LOGD "Prompt: %.100s..." [ArgStr prompt] ;;;
  m <- contexts ;;
  match um_find ctxPtr m with
  | None =>
      LOGE "Invalid context handle: %lld" [ArgInt ctxPtr] ;;;
      ret invalid_context_response
  | Some _ =>
      let response := classify prompt in
      LOGI "Generated response: %s" [ArgStr response] ;;;
      ret response
  end.

(** [Java_com_example_todoapp_llm_LlamaNative_freeModel].  [delete
    it->second] releases the context the entry owns; the table of the
    embedding holds its contexts by value, so erasing the entry is all
    that is left of it. *)
Definition LlamaNative_freeModel (ctxPtr : jlong) : JNI unit :=
  LOGI "LlamaNative.freeModel called - handle: %lld" [ArgInt ctxPtr] ;;;
  m <- contexts ;;
  match um_find ctxPtr m with
  | Some _ =>
      update_contexts (um_erase ctxPtr) ;;;
      LOGI "Model context freed successfully" []
  | None =>
      LOGE "Invalid context handle: %lld" [ArgInt ctxPtr]
  end.

(** [Java_com_example_todoapp_llm_LlamaInference_nativeInit] *)
Definition LlamaInference_nativeInit : JNI bool :=
  LOGI "LlamaInference.nativeInit called" [] ;;;
  ret true.

(** [Java_com_example_todoapp_llm_LlamaInference_nativeLoadModel] *)
Definition LlamaInference_nativeLoadModel (modelPath : string)
    (nThreads nCtx : jint) : JNI bool :=
  handle <- LlamaNative_initModel modelPath ;;
  ret (negb (Z.eqb handle 0)).

(** The block of [nativeGenerate] that picks the default context:
<<
    jlong handle = 0;
    if (!g_contexts.empty()) handle = g_contexts.begin()->first;
>> *)
Definition default_handle : JNI jlong :=
  m <- contexts ;;
  ret (if negb (um_empty m)
       then match um_begin m with
            | Some (h, _) => h
            | None => 0%Z
            end
       else 0%Z).

(** [Java_com_example_todoapp_llm_LlamaInference_nativeGenerate] *)
Definition LlamaInference_nativeGenerate (prompt : string) (maxTokens : jint)
    (temperature topP : jfloat) : JNI string :=
  handle <- default_handle ;;
  if Z.eqb handle 0 then ret no_model_response
  else LlamaNative_generate handle prompt maxTokens.

(** [Java_com_example_todoapp_llm_LlamaInference_nativeGenerateWithCallback] *)
Definition LlamaInference_nativeGenerateWithCallback (prompt : string)
    (maxTokens : jint) (temperature : jfloat) (callback : jobject) : JNI string :=
  LlamaInference_nativeGenerate prompt maxTokens temperature float_0_9.

(** [Java_com_example_todoapp_llm_LlamaInference_nativeUnloadModel].  The
    loop before [clear()] only deletes the contexts the entries own. *)
Definition LlamaInference_nativeUnloadModel : JNI unit :=
  LOGI "LlamaInference.nativeUnloadModel called" [] ;;;
  update_contexts um_clear.

(** [Java_com_example_todoapp_llm_LlamaInference_nativeCleanup] *)
Definition LlamaInference_nativeCleanup : JNI unit :=
  LOGI "LlamaInference.nativeCleanup called" [] ;;;
  LlamaInference_nativeUnloadModel.

(** [Java_com_example_todoapp_llm_LlamaInference_nativeIsModelLoaded] *)
Definition LlamaInference_nativeIsModelLoaded : JNI bool :=
  m <- contexts ;;
  ret (negb (um_empty m)).

Definition model_info (ctx : ModelContext) : string :=
  cstr "{`status`:`loaded`,`path`:`" ++ modelPath ctx ++
  cstr "`,`contextSize`:" ++ to_string (contextSize ctx) ++
  cstr ",`threads`:" ++ to_string (numThreads ctx) ++ "}".

(** [Java_com_example_todoapp_llm_LlamaInference_nativeGetModelInfo] *)
Definition LlamaInference_nativeGetModelInfo : JNI string :=
  m <- contexts ;;
  if um_empty m then ret EmptyString
  else match um_begin m with
       | Some (_, ctx) => ret (model_info ctx)
       | None => ret EmptyString
       end.

(** [Java_com_example_todoapp_llm_LlamaInference_nativeGetVersion] *)
Definition LlamaInference_nativeGetVersion : JNI string :=
  ret "llama.cpp JNI v1.0.0 (stub with JSON responses)".

(** [Java_com_example_todoapp_llm_LlamaInference_nativeIsAvailable] *)
Definition LlamaInference_nativeIsAvailable : JNI bool := ret true.

(** ** Runs of the library *)

(** A call of one of the thirteen JNI entry points with its arguments. *)
Inductive Call : Type :=
  | CallInitModel (modelPath : string)
  | CallGenerate (ctxPtr : jlong) (prompt : string) (maxTokens : jint)
  | CallFreeModel (ctxPtr : jlong)
  | CallNativeInit
  | CallNativeLoadModel (modelPath : string) (nThreads nCtx : jint)
  | CallNativeGenerate (prompt : string) (maxTokens : jint)
      (temperature topP : jfloat)
  | CallNativeGenerateWithCallback (prompt : string) (maxTokens : jint)
      (temperature : jfloat) (callback : jobject)
  | CallNativeUnloadModel
  | CallNativeCleanup
  | CallNativeIsModelLoaded
  | CallNativeGetModelInfo
  | CallNativeGetVersion
  | CallNativeIsAvailable.

(** What a call hands back to the Java side. *)
Inductive Value : Type :=
  | VLong (z : jlong)
  | VString (s : string)
  | VBool (b : bool)
  | VVoid.

Definition exec (c : Call) : JNI Value :=
  match c with
  | CallInitModel p => h <- LlamaNative_initModel p ;; ret (VLong h)
  | CallGenerate h p n => r <- LlamaNative_generate h p n ;; ret (VString r)
  | CallFreeModel h => LlamaNative_freeModel h ;;; ret VVoid
  | CallNativeInit => b <- LlamaInference_nativeInit ;; ret (VBool b)
  | CallNativeLoadModel p t c =>
      b <- LlamaInference_nativeLoadModel p t c ;; ret (VBool b)
  | CallNativeGenerate p n t tp =>
      r <- LlamaInference_nativeGenerate p n t tp ;; ret (VString r)
  | CallNativeGenerateWithCallback p n t cb =>
      r <- LlamaInference_nativeGenerateWithCallback p n t cb ;; ret (VString r)
  | CallNativeUnloadModel => LlamaInference_nativeUnloadModel ;;; ret VVoid
  | CallNativeCleanup => LlamaInference_nativeCleanup ;;; ret VVoid
  | CallNativeIsModelLoaded =>
      b <- LlamaInference_nativeIsModelLoaded ;; ret (VBool b)
  | CallNativeGetModelInfo =>
      r <- LlamaInference_nativeGetModelInfo ;; ret (VString r)
  | CallNativeGetVersion => r <- LlamaInference_nativeGetVersion ;; ret (VString r)
  | CallNativeIsAvailable => b <- LlamaInference_nativeIsAvailable ;; ret (VBool b)
  end.

(** A sequence of calls, one after the other. *)
Fixpoint run (calls : list Call) : JNI (list Value) :=
  match calls with
  | [] => ret []
  | c :: rest => v <- exec c ;; vs <- run rest ;; ret (v :: vs)
  end.

(** The state a run leaves behind. *)
Definition after (calls : list Call) (w : World) : World := snd (run calls w).

(** The calls that go through [LlamaNative.initModel]: the entry point
    itself and [nativeLoadModel], which calls it. *)
Definition initModel_path (c : Call) : option string :=
  match c with
  | CallInitModel p => Some p
  | CallNativeLoadModel p _ _ => Some p
  | _ => None
  end.

(** The handles [initModel] returned in the course of a run that starts in
    [w], in call order. *)
Fixpoint issued (calls : list Call) (w : World) : list jlong :=
  match calls with
  | [] => []
  | c :: rest =>
      match initModel_path c with
      | Some p => fst (LlamaNative_initModel p w) :: issued rest (snd (exec c w))
      | None => issued rest (snd (exec c w))
      end
  end.

(** [h] was handed to [freeModel] at some point of the run and no later
    [initModel] of the run returned it. *)
Definition freed_not_reissued (calls : list Call) (w : World) (h : jlong) : Prop :=
  exists before later,
    calls = (before ++ CallFreeModel h :: later)%list /\
    ~ In h (issued later (after (before ++ [CallFreeModel h])%list w)).

End Bridge.

(** ** JSON, as RFC 8259 defines it

    The reference against which the strings the library returns are read:
    a parser of JSON texts into values.  It is lenient about the encoding
    (any byte from 0x20 on is taken inside a string), so a text it rejects
    is rejected by every JSON parser. *)

#[local] Set Warnings "-register-all".

Inductive json : Type :=
  | JNull
  | JBool (b : bool)
  | JNumber (literal : string)
  | JString (s : string)
  | JArray (items : list json)
  | JObject (members : list (string * json)).

Inductive outcome (A : Type) : Type :=
  | Ok (a : A)
  | Malformed
  | OutOfFuel.
Arguments Ok {A} a.
Arguments Malformed {A}.
Arguments OutOfFuel {A}.

Definition is_ws (c : ascii) : bool :=
  let n := nat_of_ascii c in
  (n =? 32)%nat || (n =? 9)%nat || (n =? 10)%nat || (n =? 13)%nat.

Fixpoint skip_ws (s : string) : string :=
  match s with
  | EmptyString => EmptyString
  | String c s' => if is_ws c then skip_ws s' else s
  end.

Definition is_digit (c : ascii) : bool :=
  let n := nat_of_ascii c in (48 <=? n)%nat && (n <=? 57)%nat.

Definition hex_value (c : ascii) : option nat :=
  let n := nat_of_ascii c in
  if (48 <=? n)%nat && (n <=? 57)%nat then Some (n - 48)
  else if (65 <=? n)%nat && (n <=? 70)%nat then Some (n - 55)
  else if (97 <=? n)%nat && (n <=? 102)%nat then Some (n - 87)
  else None.

(** The bytes of the code unit [u] (below 65536) in the encoding JNI
    strings use: one, two or three bytes, as UTF-8 does. *)
Definition encode_unit (u : nat) : string :=
  if (u <? 128)%nat then String (ascii_of_nat u) EmptyString
  else if (u <? 2048)%nat then
    String (ascii_of_nat (192 + u / 64))
      (String (ascii_of_nat (128 + u mod 64)) EmptyString)
  else
    String (ascii_of_nat (224 + u / 4096))
      (String (ascii_of_nat (128 + (u / 64) mod 64))
        (String (ascii_of_nat (128 + u mod 64)) EmptyString)).

(** What a backslash followed by [c] stands for, for the one-character
    escapes. *)
Definition simple_escape (c : ascii) : option ascii :=
  let n := nat_of_ascii c in
  if (n =? 34)%nat then Some dquote
  else if (n =? 92)%nat then Some backslash
  else if (n =? 47)%nat then Some "/"%char
  else if (n =? 98)%nat then Some (ascii_of_nat 8)
  else if (n =? 102)%nat then Some (ascii_of_nat 12)
  else if (n =? 110)%nat then Some (ascii_of_nat 10)
  else if (n =? 114)%nat then Some (ascii_of_nat 13)
  else if (n =? 116)%nat then Some (ascii_of_nat 9)
  else None.

(** The characters of a string up to its closing double quote ([s] starts
    after the opening one): the decoded string and what follows the
    closing quote. *)
Fixpoint parse_chars (s : string) : outcome (string * string) :=
  match s with
  | EmptyString => Malformed
  | String c s' =>
      if Ascii.eqb c dquote then Ok (EmptyString, s')
      else if Ascii.eqb c backslash then
        match s' with
        | EmptyString => Malformed
        | String e s'' =>
            if Ascii.eqb e "u"%char then
              match s'' with
              | String h1 (String h2 (String h3 (String h4 s4))) =>
                  match hex_value h1, hex_value h2, hex_value h3, hex_value h4 with
                  | Some a, Some b, Some c', Some d =>
                      match parse_chars s4 with
                      | Ok (t, r) =>
                          Ok (encode_unit (((a * 16 + b) * 16 + c') * 16 + d) ++ t, r)
                      | other => other
                      end
                  | _, _, _, _ => Malformed
                  end
              | _ => Malformed
              end
            else
              match simple_escape e with
              | Some d =>
                  match parse_chars s'' with
                  | Ok (t, r) => Ok (String d t, r)
                  | other => other
                  end
              | None => Malformed
              end
        end
      else if (nat_of_ascii c <? 32)%nat then Malformed
      else
        match parse_chars s' with
        | Ok (t, r) => Ok (String c t, r)
        | other => other
        end
  end.

(** The longest prefix of digits and the rest. *)
Fixpoint span_digits (s : string) : string * string :=
  match s with
  | EmptyString => (EmptyString, EmptyString)
  | String c s' =>
      if is_digit c then let (d, r) := span_digits s' in (String c d, r)
      else (EmptyString, s)
  end.

(** A number: an optional minus sign, an integer part without leading
    zero, an optional fraction, an optional exponent. *)
Definition parse_number (s : string) : outcome (string * string) :=
  let (sign, s1) :=
    match s with
    | String "-" r => ("-", r)
    | _ => (EmptyString, s)
    end in
  let (int, s2) := span_digits s1 in
  match int with
  | EmptyString => Malformed
  | String d more =>
      if Ascii.eqb d "0"%char && negb (String.eqb more EmptyString) then Malformed
      else
        let frac_part :=
          match s2 with
          | String "." r =>
              let (f, r') := span_digits r in
              match f with
              | EmptyString => Malformed
              | _ => Ok ("." ++ f, r')
              end
          | _ => Ok (EmptyString, s2)
          end in
        match frac_part with
        | Ok (frac, s3) =>
            let exp_part :=
              match s3 with
              | String e r =>
                  if Ascii.eqb e "e"%char || Ascii.eqb e "E"%char then
                    let (esign, r1) :=
                      match r with
                      | String "+" r' => ("+", r')
                      | String "-" r' => ("-", r')
                      | _ => (EmptyString, r)
                      end in
                    let (ds, r2) := span_digits r1 in
                    match ds with
                    | EmptyString => Malformed
                    | _ => Ok (String e esign ++ ds, r2)
                    end
                  else Ok (EmptyString, s3)
              | EmptyString => Ok (EmptyString, s3)
              end in
            match exp_part with
            | Ok (ex, s4) => Ok (sign ++ int ++ frac ++ ex, s4)
            | other => other
            end
        | other => other
        end
  end.

(** A value, the elements of an array after its opening bracket, and the
    members of an object after its opening brace.  One unit of fuel goes
    into each call; every call reads a character before it calls again, so
    the length of the text is fuel enough. *)
Fixpoint parse_value (fuel : nat) (s : string) {struct fuel} : outcome (json * string) :=
  match fuel with
  | O => OutOfFuel
  | S f =>
      match skip_ws s with
      | EmptyString => Malformed
      | String c r =>
          if Ascii.eqb c "{"%char then
            match skip_ws r with
            | String "}" r' => Ok (JObject [], r')
            | _ => parse_members f r []
            end
          else if Ascii.eqb c "["%char then
            match skip_ws r with
            | String "]" r' => Ok (JArray [], r')
            | _ => parse_elements f r []
            end
          else if Ascii.eqb c dquote then
            match parse_chars r with
            | Ok (t, r') => Ok (JString t, r')
            | Malformed => Malformed
            | OutOfFuel => OutOfFuel
            end
          else if starts_with "true" (String c r) then Ok (JBool true, drop 4 (String c r))
          else if starts_with "false" (String c r) then Ok (JBool false, drop 5 (String c r))
          else if starts_with "null" (String c r) then Ok (JNull, drop 4 (String c r))
          else
            match parse_number (String c r) with
            | Ok (n, r') => Ok (JNumber n, r')
            | Malformed => Malformed
            | OutOfFuel => OutOfFuel
            end
      end
  end
with parse_elements (fuel : nat) (s : string) (acc : list json) {struct fuel}
    : outcome (json * string) :=
  match fuel with
  | O => OutOfFuel
  | S f =>
      match parse_value f s with
      | Ok (v, r) =>
          match skip_ws r with
          | String "," r' => parse_elements f r' (acc ++ [v])%list
          | String "]" r' => Ok (JArray (acc ++ [v])%list, r')
          | _ => Malformed
          end
      | other => other
      end
  end
with parse_members (fuel : nat) (s : string) (acc : list (string * json)) {struct fuel}
    : outcome (json * string) :=
  match fuel with
  | O => OutOfFuel
  | S f =>
      match skip_ws s with
      | String c r =>
          if Ascii.eqb c dquote then
            match parse_chars r with
            | Ok (key, r1) =>
                match skip_ws r1 with
                | String ":" r2 =>
                    match parse_value f r2 with
                    | Ok (v, r3) =>
                        match skip_ws r3 with
                        | String "," r4 => parse_members f r4 (acc ++ [(key, v)])%list
                        | String "}" r4 => Ok (JObject (acc ++ [(key, v)])%list, r4)
                        | _ => Malformed
                        end
                    | other => other
                    end
                | _ => Malformed
                end
            | Malformed => Malformed
            | OutOfFuel => OutOfFuel
            end
          else Malformed
      | EmptyString => Malformed
      end
  end.

(** A JSON text: one value with nothing but white space after it. *)
Definition json_parse (s : string) : outcome json :=
  match parse_value (S (length s)) s with
  | Ok (v, r) =>
      match skip_ws r with
      | EmptyString => Ok v
      | _ => Malformed
      end
  | Malformed => Malformed
  | OutOfFuel => OutOfFuel
  end.

(** The value of member [k] of an object (the first, if it is repeated). *)
Fixpoint assoc (k : string) (ms : list (string * json)) : option json :=
  match ms with
  | [] => None
  | (k', v) :: rest => if String.eqb k k' then Some v else assoc k rest
  end.

Definition field (k : string) (v : json) : option json :=
  match v with
  | JObject ms => assoc k ms
  | _ => None
  end.

Definition keys (v : json) : list string :=
  match v with
  | JObject ms => map fst ms
  | _ => []
  end.

(** [l] lists exactly the names [expected] (which are distinct), in any
    order. *)
Definition exactly_keys (l expected : list string) : bool :=
  (List.length l =? List.length expected)%nat &&
  forallb (fun k => existsb (String.eqb k) l) expected.

(** The [data] keys the response schema gives each action. *)
Definition data_keys (action : string) : option (list string) :=
  if String.eqb action "reply" then Some []
  else if String.eqb action "show_progress" then Some []
  else if String.eqb action "create_goal" then
    Some ["goalTitle"; "durationMonths"; "dailyMinutes"]
  else if String.eqb action "create_task" then
    Some ["taskTitle"; "dueDate"; "minutes"]
  else if String.eqb action "complete_task" then Some ["taskTitle"]
  else None.

(** The response schema: an object with exactly the members [action] (one
    of the five tags), [message] (a string) and [data] (an object with the
    keys of the action). *)
Definition conforms (v : json) : bool :=
  match field "action" v, field "message" v, field "data" v with
  | Some (JString a), Some (JString _), Some (JObject d) =>
      exactly_keys (keys v) ["action"; "message"; "data"] &&
      match data_keys a with
      | Some ks => exactly_keys (map fst d) ks
      | None => false
      end
  | _, _, _ => false
  end.

(** The string is a response of the schema. *)
Definition valid_response (s : string) : bool :=
  match json_parse s with
  | Ok v => conforms v
  | _ => false
  end.

(** The [action] of a response. *)
Definition action_of (s : string) : option string :=
  match json_parse s with
  | Ok v =>
      match field "action" v with
      | Some (JString a) => Some a
      | _ => None
      end
  | _ => None
  end.

(** Member [k] of the [data] object of a response. *)
Definition data_field (k : string) (s : string) : option json :=
  match json_parse s with
  | Ok v =>
      match field "data" v with
      | Some d => field k d
      | None => None
      end
  | _ => None
  end.

(** ** One implementation of the table

    A list of entries in iteration order.  A new key goes to the front, as
    in a chained hash table whose node list grows at its head when the key
    falls into an empty bucket; an assignment to a key that is present
    replaces the value where it stands. *)

Definition FrontMap (V : Type) : Type := list (Z * V).

Fixpoint fm_find {V : Type} (k : Z) (m : FrontMap V) : option V :=
  match m with
  | [] => None
  | (k', v) :: rest => if Z.eqb k k' then Some v else fm_find k rest
  end.

Fixpoint fm_replace {V : Type} (k : Z) (v : V) (m : FrontMap V) : FrontMap V :=
  match m with
  | [] => []
  | (k', v') :: rest =>
      if Z.eqb k k' then (k', v) :: rest else (k', v') :: fm_replace k v rest
  end.

Definition fm_assign {V : Type} (k : Z) (v : V) (m : FrontMap V) : FrontMap V :=
  match fm_find k m with
  | Some _ => fm_replace k v m
  | None => (k, v) :: m
  end.

Fixpoint fm_erase {V : Type} (k : Z) (m : FrontMap V) : FrontMap V :=
  match m with
  | [] => []
  | (k', v) :: rest =>
      if Z.eqb k k' then fm_erase k rest else (k', v) :: fm_erase k rest
  end.

Definition fm_empty {V : Type} (m : FrontMap V) : bool :=
  match m with
  | [] => true
  | _ :: _ => false
  end.

Definition fm_begin {V : Type} (m : FrontMap V) : option (Z * V) :=
  match m with
  | [] => None
  | e :: _ => Some e
  end.

(** ** The classification rules, as the specification words them *)

(** The number of occurrences of [c] in [s]. *)
Fixpoint count_char (c : ascii) (s : string) : nat :=
  match s with
  | EmptyString => O
  | String b s' => (if Ascii.eqb c b then 1 else 0) + count_char c s'
  end.

Inductive Rule : Type :=
  | RuleCreateGoal
  | RuleCreateTask
  | RuleList
  | RuleHelp
  | RuleCompleteTask
  | RuleDelete
  | RuleProgress
  | RuleDefault.

(** The lowercased prompt contains the keyword. *)
Definition mentions (prompt keyword : string) : bool :=
  contains (to_lower prompt) keyword.

(** The rule a prompt matches: the first of the eight, in their fixed
    priority order, whose keywords the lowercased prompt contains. *)
Definition matched_rule (prompt : string) : Rule :=
  if mentions prompt "create" && mentions prompt "goal" then RuleCreateGoal
  else if mentions prompt "add" && mentions prompt "task" then RuleCreateTask
  else if mentions prompt "list" || mentions prompt "show" then RuleList
  else if mentions prompt "help" then RuleHelp
  else if mentions prompt "complete" || mentions prompt "done"
          || mentions prompt "finish" then RuleCompleteTask
  else if mentions prompt "delete" || mentions prompt "remove" then RuleDelete
  else if mentions prompt "progress" || mentions prompt "how am i"
          || mentions prompt "status" then RuleProgress
  else RuleDefault.

(** ** Texts whose parse is known

    A response of the stub is a sequence of punctuation characters and of
    strings between double quotes.  [render] writes such a sequence down;
    the replies are compared with it to read them back. *)

Fixpoint all_chars (f : ascii -> bool) (s : string) : bool :=
  match s with
  | EmptyString => true
  | String c s' => f c && all_chars f s'
  end.

(** A character that may stand unescaped in a JSON string, the double
    quote apart: no backslash and no control character. *)
Definition escape_free (c : ascii) : bool :=
  negb (Ascii.eqb c backslash) && negb (nat_of_ascii c <? 32)%nat.

(** A character that may stand unescaped in a JSON string. *)
Definition plain_char (c : ascii) : bool :=
  negb (Ascii.eqb c dquote) && escape_free c.

(** [s] between double quotes, followed by [rest]. *)
Definition quoted (s rest : string) : string :=
  String dquote (s ++ String dquote rest).

Inductive token : Type :=
  | TQuoted (s : string)
  | TChar (c : ascii).

Fixpoint render (ts : list token) : string :=
  match ts with
  | [] => EmptyString
  | TQuoted s :: rest => quoted s (render rest)
  | TChar c :: rest => String c (render rest)
  end.

Definition create_goal_tokens (t : string) : list token :=
  [TChar "{"; TQuoted "action"; TChar ":"; TQuoted "create_goal"; TChar ",";
   TQuoted "message"; TChar ":"; TQuoted ("I'll create a goal for " ++ t); TChar ",";
   TQuoted "data"; TChar ":"; TChar "{";
   TQuoted "goalTitle"; TChar ":"; TQuoted t; TChar ",";
   TQuoted "durationMonths"; TChar ":"; TChar "3"; TChar ",";
   TQuoted "dailyMinutes"; TChar ":"; TChar "3"; TChar "0"; TChar "}"; TChar "}"].

Definition create_task_tokens (t : string) : list token :=
  [TChar "{"; TQuoted "action"; TChar ":"; TQuoted "create_task"; TChar ",";
   TQuoted "message"; TChar ":"; TQuoted ("I'll add the task: " ++ t); TChar ",";
   TQuoted "data"; TChar ":"; TChar "{";
   TQuoted "taskTitle"; TChar ":"; TQuoted t; TChar ",";
   TQuoted "dueDate"; TChar ":"; TQuoted "today"; TChar ",";
   TQuoted "minutes"; TChar ":"; TChar "3"; TChar "0"; TChar "}"; TChar "}"].

Definition complete_task_tokens (t : string) : list token :=
  [TChar "{"; TQuoted "action"; TChar ":"; TQuoted "complete_task"; TChar ",";
   TQuoted "message"; TChar ":"; TQuoted "Great job! I'll mark that as complete.";
   TChar ",";
   TQuoted "data"; TChar ":"; TChar "{";
   TQuoted "taskTitle"; TChar ":"; TQuoted t; TChar "}"; TChar "}"].

(** The title the matched rule copies into its reply (none for the rules
    with a fixed reply). *)
Definition title_of (prompt : string) : option string :=
  match matched_rule prompt with
  | RuleCreateGoal => Some (extract_quoted prompt "New Goal")
  | RuleCreateTask => Some (extract_quoted prompt "New Task")
  | RuleCompleteTask => Some (extract_quoted prompt "task")
  | _ => None
  end.

(** ** Vocabulary for the properties of whole runs and of the replies *)

(** The model paths a run hands to [initModel], in call order. *)
Definition paths (calls : list Call) : list string :=
  flat_map (fun c => match initModel_path c with
                     | Some p => [p]
                     | None => []
                     end) calls.

(** The [k] consecutive handles from [first] on. *)
Fixpoint handles_from (first : Z) (k : nat) : list Z :=
  match k with
  | O => []
  | S k' => first :: handles_from (first + 1) k'
  end.

(** [needle] occurs in [s]. *)
Definition occurs (needle s : string) : Prop :=
  exists a b, s = a ++ needle ++ b.

(** An ASCII letter. *)
Definition is_letter (c : ascii) : bool :=
  let n := nat_of_ascii c in
  ((65 <=? n)%nat && (n <=? 90)%nat) || ((97 <=? n)%nat && (n <=? 122)%nat).

(** The action tag of the reply of each rule. *)
Definition action_name (r : Rule) : string :=
  match r with
  | RuleCreateGoal => "create_goal"
  | RuleCreateTask => "create_task"
  | RuleCompleteTask => "complete_task"
  | RuleProgress => "show_progress"
  | RuleList | RuleHelp | RuleDelete | RuleDefault => "reply"
  end.

(** The calls that write to [g_contexts] or [g_next_handle]. *)
Definition changes_registry (c : Call) : bool :=
  match c with
  | CallInitModel _ | CallNativeLoadModel _ _ _ | CallFreeModel _
  | CallNativeUnloadModel | CallNativeCleanup => true
  | _ => false
  end.

(** The text [nativeGetModelInfo] builds for a context made by the
    constructor. *)
Definition model_info_tokens (path : string) : list token :=
  [TChar "{"; TQuoted "status"; TChar ":"; TQuoted "loaded"; TChar ",";
   TQuoted "path"; TChar ":"; TQuoted path; TChar ",";
   TQuoted "contextSize"; TChar ":"; TChar "2"; TChar "0"; TChar "4"; TChar "8";
   TChar ",";
   TQuoted "threads"; TChar ":"; TChar "4"; TChar "}"].

(** * Properties *)

(** ** Strings *)

Lemma length_app (a b : string) : length (a ++ b) = length a + length b.
Proof.
  induction a as [|c a IH]; cbn; [reflexivity | rewrite IH; reflexivity].
Qed.

Lemma drop_app (a b : string) : drop (length a) (a ++ b) = b.
Proof.
  induction a as [|c a IH]; cbn; [destruct b; reflexivity | exact IH].
Qed.

Lemma take_app (a b : string) : take (length a) (a ++ b) = a.
Proof.
  induction a as [|c a IH]; cbn; [reflexivity | rewrite IH; reflexivity].
Qed.

Lemma drop_0 (s : string) : drop 0 s = s.
Proof. destruct s; reflexivity. Qed.

Lemma starts_with_char (c : ascii) (s : string) :
  starts_with (String c EmptyString) s =
  match s with
  | EmptyString => false
  | String b _ => Ascii.eqb c b
  end.
Proof.
  destruct s as [|b s]; cbn; [reflexivity | apply andb_true_r].
Qed.

(** Searching a character that does not occur finds nothing. *)
Lemma find_at_char_none (c : ascii) (s : string) :
  forall i, count_char c s = 0 -> find_at (String c EmptyString) s i = None.
Proof.
  induction s as [|b s IH]; intros i Hc.
  - reflexivity.
  - cbn [find_at]. rewrite starts_with_char. cbn [count_char] in Hc.
    destruct (Ascii.eqb c b); [discriminate|]. apply IH. exact Hc.
Qed.

(** Searching a character finds its first occurrence. *)
Lemma find_at_char_first (c : ascii) (a r : string) :
  forall i, count_char c a = 0 ->
    find_at (String c EmptyString) (a ++ String c r) i = Some (i + length a).
Proof.
  induction a as [|b a IH]; intros i Hc.
  - cbn [append find_at]. rewrite starts_with_char, Ascii.eqb_refl.
    cbn. rewrite Nat.add_0_r. reflexivity.
  - cbn [append find_at]. rewrite starts_with_char. cbn [count_char] in Hc.
    destruct (Ascii.eqb c b); [discriminate|].
    rewrite IH by exact Hc. cbn [length]. f_equal. lia.
Qed.

(** A string in which [c] occurs splits at the first occurrence. *)
Lemma split_first (c : ascii) (s : string) :
  1 <= count_char c s ->
  exists a r, s = a ++ String c r /\ count_char c a = 0 /\
              count_char c s = S (count_char c r).
Proof.
  induction s as [|b s IH]; cbn [count_char]; intros Hc.
  - lia.
  - destruct (Ascii.eqb_spec c b) as [<- | Hne].
    + exists EmptyString, s. repeat split.
    + destruct IH as (a & r & -> & Ha & Hr); [lia|].
      exists (String b a), r. cbn [append count_char].
      destruct (Ascii.eqb_spec c b); [contradiction|].
      repeat split; [exact Ha | exact Hr].
Qed.

Lemma find_char_first (c : ascii) (a r : string) :
  count_char c a = 0 ->
  find_char (a ++ String c r) c 0 = Some (length a).
Proof.
  intros Ha. unfold find_char, find. cbn [Nat.leb]. rewrite drop_0.
  apply (find_at_char_first c a r 0 Ha).
Qed.

Lemma find_char_none (c : ascii) (s : string) :
  count_char c s = 0 -> find_char s c 0 = None.
Proof.
  intros Hs. unfold find_char, find. cbn [Nat.leb]. rewrite drop_0.
  apply find_at_char_none. exact Hs.
Qed.

Lemma drop_past (c : ascii) (a r : string) :
  drop (S (length a)) (a ++ String c r) = r.
Proof.
  induction a as [|b a IH]; cbn; [destruct r; reflexivity | exact IH].
Qed.

Lemma find_char_after (c : ascii) (a r : string) :
  find_char (a ++ String c r) c (S (length a)) =
  find_at (String c EmptyString) r (S (length a)).
Proof.
  unfold find_char, find. rewrite length_app. cbn [length].
  replace (S (length a) <=? length a + S (length r))%nat with true
    by (symmetry; apply Nat.leb_le; lia).
  rewrite drop_past. reflexivity.
Qed.

(** ** The quote heuristic *)

(** With fewer than two double quotes in the prompt the default stands. *)
Lemma extract_quoted_default (p dflt : string) :
  count_char dquote p < 2 -> extract_quoted p dflt = dflt.
Proof.
  intros Hc. unfold extract_quoted.
  destruct (count_char dquote p) as [|k] eqn:E.
  - rewrite (find_char_none _ _ E). reflexivity.
  - destruct (split_first dquote p) as (a & r & -> & Ha & Hr); [lia|].
    assert (Hr0 : count_char dquote r = 0) by lia.
    rewrite (find_char_first _ _ _ Ha). cbn [size_succ].
    rewrite find_char_after, (find_at_char_none _ _ _ Hr0). reflexivity.
Qed.

(** With two double quotes the text between the first and the one after
    it is taken. *)
Lemma extract_quoted_between (a t rest dflt : string) :
  count_char dquote a = 0 -> count_char dquote t = 0 ->
  extract_quoted (a ++ String dquote (t ++ String dquote rest)) dflt = t.
Proof.
  intros Ha Ht. unfold extract_quoted.
  rewrite (find_char_first _ _ _ Ha). cbn [size_succ].
  rewrite find_char_after, (find_at_char_first _ _ _ _ Ht).
  unfold substr.
  replace (length a + 1) with (S (length a)) by lia.
  rewrite drop_past.
  replace (S (length a) + length t - length a - 1) with (length t) by lia.
  apply take_app.
Qed.

(** A prompt with two double quotes or more has a first quoted text. *)
Lemma two_quotes_split (p : string) :
  2 <= count_char dquote p ->
  exists a t rest,
    p = a ++ String dquote (t ++ String dquote rest) /\
    count_char dquote a = 0 /\ count_char dquote t = 0.
Proof.
  intros Hc.
  destruct (split_first dquote p) as (a & r & -> & Ha & Hr); [lia|].
  destruct (split_first dquote r) as (t & rest & -> & Ht & _); [lia|].
  exists a, t, rest. repeat split; assumption.
Qed.

(** Both positions handed to [substr] lie inside the prompt: the call
    never throws. *)
Lemma extract_quoted_in_range (p : string) (qs qe : nat) :
  find_char p dquote 0 = Some qs ->
  find_char p dquote (size_succ (Some qs)) = Some qe ->
  qs + 1 <= length p /\ qs < qe.
Proof.
  unfold find_char, find. cbn [size_succ].
  destruct (S qs <=? length p)%nat eqn:E; [|discriminate].
  apply Nat.leb_le in E. intros _ Hqe. split; [lia|].
  assert (Hge : forall n s i k, find_at n s i = Some k -> i <= k).
  { intros n s. induction s as [|b s IH]; intros i k; cbn [find_at].
    - destruct (starts_with n EmptyString); [|discriminate].
      intros [= <-]. lia.
    - destruct (starts_with n (String b s)); [intros [= <-]; lia|].
      intros H. apply IH in H. lia. }
  apply Hge in Hqe. lia.
Qed.

(** ** The classifier *)

(** The branch [classify] takes is the rule the prompt matches. *)
Lemma classify_by_rule (p : string) :
  classify p =
  match matched_rule p with
  | RuleCreateGoal => create_goal_response (extract_quoted p "New Goal")
  | RuleCreateTask => create_task_response (extract_quoted p "New Task")
  | RuleList => list_response
  | RuleHelp => help_response
  | RuleCompleteTask => complete_task_response (extract_quoted p "task")
  | RuleDelete => delete_response
  | RuleProgress => progress_response
  | RuleDefault => default_response
  end.
Proof.
  unfold classify, matched_rule, mentions.
  repeat match goal with
         | |- context [if ?b then _ else _] => destruct b
         end; reflexivity.
Qed.

(** No reply of the stub is the model-not-loaded string. *)
Lemma classify_not_invalid (p : string) :
  classify p <> invalid_context_response.
Proof.
  rewrite classify_by_rule.
  destruct (matched_rule p);
    unfold create_goal_response, create_task_response, complete_task_response;
    try generalize (extract_quoted p "New Goal");
    try generalize (extract_quoted p "New Task");
    try generalize (extract_quoted p "task");
    intros; cbn; discriminate.
Qed.

(** ** Reading the replies back *)

Lemma all_chars_app (f : ascii -> bool) (a b : string) :
  all_chars f (a ++ b) = all_chars f a && all_chars f b.
Proof.
  induction a as [|c a IH]; cbn; [reflexivity | rewrite IH, andb_assoc; reflexivity].
Qed.

Lemma plain_of_escape_free (t : string) :
  count_char dquote t = 0 -> all_chars escape_free t = true ->
  all_chars plain_char t = true.
Proof.
  induction t as [|c t IH]; cbn [count_char all_chars]; intros Hq He.
  - reflexivity.
  - apply andb_prop in He as [Hc Ht]. unfold plain_char. rewrite Hc.
    rewrite Ascii.eqb_sym. destruct (Ascii.eqb dquote c); [discriminate|].
    cbn. apply IH; [exact Hq | exact Ht].
Qed.

(** A string of plain characters is read up to its closing quote, and
    read as itself. *)
Lemma parse_chars_plain (t rest : string) :
  all_chars plain_char t = true ->
  parse_chars (t ++ String dquote rest) = Ok (t, rest).
Proof.
  induction t as [|c t IH]; intros Hp.
  - reflexivity.
  - cbn [all_chars] in Hp. apply andb_prop in Hp as [Hc Ht].
    unfold plain_char, escape_free in Hc.
    apply andb_prop in Hc as [H1 Hc]. apply andb_prop in Hc as [H2 H3].
    apply negb_true_iff in H1, H2, H3.
    cbn [append parse_chars]. rewrite H1, H2, H3, (IH Ht). reflexivity.
Qed.

Lemma parse_value_quoted (f : nat) (t rest : string) :
  all_chars plain_char t = true ->
  parse_value (S f) (quoted t rest) = Ok (JString t, rest).
Proof.
  intros Hp. unfold quoted. cbn [parse_value skip_ws].
  change (is_ws dquote) with false. cbv iota.
  change (Ascii.eqb dquote "{"%char) with false.
  change (Ascii.eqb dquote "["%char) with false.
  change (Ascii.eqb dquote dquote) with true. cbv iota.
  rewrite (parse_chars_plain _ _ Hp). reflexivity.
Qed.

Lemma parse_value_object (f : nat) (key rest : string) :
  parse_value (S f) (String "{" (quoted key rest)) =
  parse_members f (quoted key rest) [].
Proof. reflexivity. Qed.

Lemma parse_value_3_comma (f : nat) (rest : string) :
  parse_value (S f) (String "3" (String "," rest)) = Ok (JNumber "3", String "," rest).
Proof. reflexivity. Qed.

Lemma parse_value_30_close (f : nat) (rest : string) :
  parse_value (S f) (String "3" (String "0" (String "}" rest))) =
  Ok (JNumber "30", String "}" rest).
Proof. reflexivity. Qed.

(** A member followed by a comma: the parse goes on with the next one. *)
Lemma parse_members_comma (f : nat) (key vs more : string) (v : json)
    (acc : list (string * json)) :
  all_chars plain_char key = true ->
  parse_value f vs = Ok (v, String "," more) ->
  parse_members (S f) (quoted key (String ":" vs)) acc =
  parse_members f more (acc ++ [(key, v)])%list.
Proof.
  intros Hk Hv. unfold quoted. cbn [parse_members skip_ws].
  change (is_ws dquote) with false. cbv iota.
  change (Ascii.eqb dquote dquote) with true. cbv iota.
  rewrite (parse_chars_plain _ _ Hk). cbn [skip_ws].
  change (is_ws ":"%char) with false. cbv iota. rewrite Hv. reflexivity.
Qed.

(** A member followed by a closing brace: the object is complete. *)
Lemma parse_members_close (f : nat) (key vs more : string) (v : json)
    (acc : list (string * json)) :
  all_chars plain_char key = true ->
  parse_value f vs = Ok (v, String "}" more) ->
  parse_members (S f) (quoted key (String ":" vs)) acc =
  Ok (JObject (acc ++ [(key, v)])%list, more).
Proof.
  intros Hk Hv. unfold quoted. cbn [parse_members skip_ws].
  change (is_ws dquote) with false. cbv iota.
  change (Ascii.eqb dquote dquote) with true. cbv iota.
  rewrite (parse_chars_plain _ _ Hk). cbn [skip_ws].
  change (is_ws ":"%char) with false. cbv iota. rewrite Hv. reflexivity.
Qed.

Lemma length_render (ts : list token) : List.length ts <= length (render ts).
Proof.
  induction ts as [|[s|c] ts IH]; cbn [render List.length length].
  - lia.
  - unfold quoted. cbn [length]. rewrite length_app. cbn [length]. lia.
  - lia.
Qed.

Lemma create_goal_response_shape (t : string) :
  create_goal_response t = render (create_goal_tokens t).
Proof. reflexivity. Qed.

Lemma create_task_response_shape (t : string) :
  create_task_response t = render (create_task_tokens t).
Proof. reflexivity. Qed.

Lemma complete_task_response_shape (t : string) :
  complete_task_response t = render (complete_task_tokens t).
Proof. reflexivity. Qed.

Ltac plain :=
  first [ assumption
        | reflexivity
        | rewrite all_chars_app; apply andb_true_intro; split;
          [reflexivity | assumption] ].

(** The text has more characters than the parse of a reply needs fuel. *)
Ltac enough_fuel ts :=
  let Hlen := fresh "Hlen" in
  let n := fresh "n" in
  pose proof (length_render ts) as Hlen;
  cbn [create_goal_tokens create_task_tokens complete_task_tokens List.length] in Hlen;
  destruct (length (render ts)) as [|n]; [lia|];
  do 10 (destruct n as [|n]; [lia|]); clear Hlen.

Lemma create_goal_response_parses (t : string) :
  all_chars plain_char t = true ->
  json_parse (create_goal_response t) =
  Ok (JObject
        [("action", JString "create_goal");
         ("message", JString ("I'll create a goal for " ++ t));
         ("data", JObject [("goalTitle", JString t);
                           ("durationMonths", JNumber "3");
                           ("dailyMinutes", JNumber "30")])]).
Proof.
  intros Hp. unfold json_parse. rewrite create_goal_response_shape.
  enough_fuel (create_goal_tokens t).
  cbn [create_goal_tokens render].
  rewrite parse_value_object.
  erewrite parse_members_comma; [| plain | apply parse_value_quoted; plain].
  erewrite parse_members_comma; [| plain | apply parse_value_quoted; plain].
  erewrite parse_members_close; [| plain |].
  2: { rewrite parse_value_object.
       erewrite parse_members_comma; [| plain | apply parse_value_quoted; plain].
       erewrite parse_members_comma; [| plain | apply parse_value_3_comma].
       erewrite parse_members_close; [| plain | apply parse_value_30_close].
       reflexivity. }
  reflexivity.
Qed.

Lemma create_task_response_parses (t : string) :
  all_chars plain_char t = true ->
  json_parse (create_task_response t) =
  Ok (JObject
        [("action", JString "create_task");
         ("message", JString ("I'll add the task: " ++ t));
         ("data", JObject [("taskTitle", JString t);
                           ("dueDate", JString "today");
                           ("minutes", JNumber "30")])]).
Proof.
  intros Hp. unfold json_parse. rewrite create_task_response_shape.
  enough_fuel (create_task_tokens t).
  cbn [create_task_tokens render].
  rewrite parse_value_object.
  erewrite parse_members_comma; [| plain | apply parse_value_quoted; plain].
  erewrite parse_members_comma; [| plain | apply parse_value_quoted; plain].
  erewrite parse_members_close; [| plain |].
  2: { rewrite parse_value_object.
       erewrite parse_members_comma; [| plain | apply parse_value_quoted; plain].
       erewrite parse_members_comma; [| plain | apply parse_value_quoted; plain].
       erewrite parse_members_close; [| plain | apply parse_value_30_close].
       reflexivity. }
  reflexivity.
Qed.

Lemma complete_task_response_parses (t : string) :
  all_chars plain_char t = true ->
  json_parse (complete_task_response t) =
  Ok (JObject
        [("action", JString "complete_task");
         ("message", JString "Great job! I'll mark that as complete.");
         ("data", JObject [("taskTitle", JString t)])]).
Proof.
  intros Hp. unfold json_parse. rewrite complete_task_response_shape.
  enough_fuel (complete_task_tokens t).
  cbn [complete_task_tokens render].
  rewrite parse_value_object.
  erewrite parse_members_comma; [| plain | apply parse_value_quoted; plain].
  erewrite parse_members_comma; [| plain | apply parse_value_quoted; plain].
  erewrite parse_members_close; [| plain |].
  2: { rewrite parse_value_object.
       erewrite parse_members_close; [| plain | apply parse_value_quoted; plain].
       reflexivity. }
  reflexivity.
Qed.

(** The heuristic never hands back a double quote. *)
Lemma extract_quoted_no_quote (p dflt : string) :
  count_char dquote dflt = 0 -> count_char dquote (extract_quoted p dflt) = 0.
Proof.
  intros Hd. destruct (le_lt_dec 2 (count_char dquote p)) as [Hge | Hlt].
  - destruct (two_quotes_split p Hge) as (a & t & rest & -> & Ha & Ht).
    rewrite (extract_quoted_between a t rest dflt Ha Ht). exact Ht.
  - rewrite (extract_quoted_default p dflt Hlt). exact Hd.
Qed.

(** Every reply of the stub whose title is free of backslashes and control
    characters is a response of the schema, and carries the title in its
    [data]. *)
Lemma classify_valid_when_escape_free (p : string) :
  match title_of p with
  | Some t => all_chars escape_free t = true
  | None => True
  end ->
  valid_response (classify p) = true /\
  match matched_rule p with
  | RuleCreateGoal =>
      data_field "goalTitle" (classify p) = Some (JString (extract_quoted p "New Goal"))
  | RuleCreateTask =>
      data_field "taskTitle" (classify p) = Some (JString (extract_quoted p "New Task"))
  | RuleCompleteTask =>
      data_field "taskTitle" (classify p) = Some (JString (extract_quoted p "task"))
  | _ => True
  end.
Proof.
  rewrite classify_by_rule. unfold title_of.
  assert (Hplain : forall dflt,
            count_char dquote dflt = 0 ->
            all_chars escape_free (extract_quoted p dflt) = true ->
            all_chars plain_char (extract_quoted p dflt) = true).
  { intros dflt Hd He. apply plain_of_escape_free; [|exact He].
    apply extract_quoted_no_quote. exact Hd. }
  unfold valid_response, data_field.
  destruct (matched_rule p); intros Hfree.
  - rewrite (create_goal_response_parses _ (Hplain "New Goal" eq_refl Hfree)).
    split; reflexivity.
  - rewrite (create_task_response_parses _ (Hplain "New Task" eq_refl Hfree)).
    split; reflexivity.
  - split; [vm_compute; reflexivity | exact I].
  - split; [vm_compute; reflexivity | exact I].
  - rewrite (complete_task_response_parses _ (Hplain "task" eq_refl Hfree)).
    split; reflexivity.
  - split; [vm_compute; reflexivity | exact I].
  - split; [vm_compute; reflexivity | exact I].
  - split; [vm_compute; reflexivity | exact I].
Qed.

(** ** The handle table *)

Section BridgeFacts.

Context {M : Type} {UM : UnorderedMap ModelContext M}.

Ltac run_jni :=
  unfold LlamaInference_nativeCleanup, LlamaInference_nativeUnloadModel,
    LlamaInference_nativeGenerateWithCallback, LlamaInference_nativeGenerate,
    LlamaInference_nativeLoadModel, LlamaInference_nativeInit,
    LlamaInference_nativeIsModelLoaded, LlamaInference_nativeGetModelInfo,
    LlamaInference_nativeGetVersion, LlamaInference_nativeIsAvailable,
    LlamaNative_initModel, LlamaNative_generate, LlamaNative_freeModel,
    default_handle, allocateHandle, update_contexts, contexts,
    LOGI, LOGE, LOGD, emit, bind, ret;
  cbn [fst snd g_contexts g_next_handle effects].

(** What [generate] computes, by the two cases of the lookup. *)
Lemma generate_unfold (w : World) (h : jlong) (prompt : string) (n : jint) :
  LlamaNative_generate h prompt n w =
  let called :=
    ((effects w ++
      [LogPrint ANDROID_LOG_INFO
         "LlamaNative.generate called - handle: %lld, maxTokens: %d"
         [ArgInt h; ArgInt n]]) ++
      [LogPrint ANDROID_LOG_DEBUG "Prompt: %.100s..." [ArgStr prompt]])%list in
  match um_find h (g_contexts w) with
  | None =>
      (invalid_context_response,
       {| g_contexts := g_contexts w; g_next_handle := g_next_handle w;
          effects := (called ++ [LogPrint ANDROID_LOG_ERROR
                        "Invalid context handle: %lld" [ArgInt h]])%list |})
  | Some _ =>
      (classify prompt,
       {| g_contexts := g_contexts w; g_next_handle := g_next_handle w;
          effects := (called ++ [LogPrint ANDROID_LOG_INFO
                        "Generated response: %s" [ArgStr (classify prompt)]])%list |})
  end.
Proof.
  run_jni. destruct (um_find h (g_contexts w)); reflexivity.
Qed.

Lemma generate_globals (w : World) (h : jlong) (prompt : string) (n : jint) :
  g_contexts (snd (LlamaNative_generate h prompt n w)) = g_contexts w /\
  g_next_handle (snd (LlamaNative_generate h prompt n w)) = g_next_handle w.
Proof.
  rewrite generate_unfold. cbv zeta.
  destruct (um_find h (g_contexts w)); split; reflexivity.
Qed.

Lemma generate_absent (w : World) (h : jlong) (prompt : string) (n : jint) :
  um_find h (g_contexts w) = None ->
  fst (LlamaNative_generate h prompt n w) = invalid_context_response.
Proof.
  intros Habs. rewrite generate_unfold. cbv zeta. rewrite Habs. reflexivity.
Qed.

Lemma generate_present (w : World) (h : jlong) (prompt : string) (n : jint) :
  um_find h (g_contexts w) <> None ->
  fst (LlamaNative_generate h prompt n w) = classify prompt.
Proof.
  intros Hpres. rewrite generate_unfold. cbv zeta.
  destruct (um_find h (g_contexts w)); [reflexivity | congruence].
Qed.

(** [initModel] returns the counter, stores the fresh context under it and
    advances the counter. *)
Lemma initModel_unfold (w : World) (path : string) :
  fst (LlamaNative_initModel path w) = g_next_handle w /\
  g_contexts (snd (LlamaNative_initModel path w)) =
    um_assign (g_next_handle w) (ModelContext_new path) (g_contexts w) /\
  g_next_handle (snd (LlamaNative_initModel path w)) = wrap64 (g_next_handle w + 1).
Proof.
  run_jni. repeat split.
Qed.

Lemma freeModel_globals (w : World) (h : jlong) :
  g_next_handle (snd (LlamaNative_freeModel h w)) = g_next_handle w /\
  g_contexts (snd (LlamaNative_freeModel h w)) =
    match um_find h (g_contexts w) with
    | Some _ => um_erase h (g_contexts w)
    | None => g_contexts w
    end.
Proof.
  run_jni. destruct (um_find h (g_contexts w)); split; reflexivity.
Qed.

Lemma freeModel_absent_after (w : World) (h : jlong) :
  um_find h (g_contexts (snd (LlamaNative_freeModel h w))) = None.
Proof.
  destruct (freeModel_globals w h) as [_ ->].
  destruct (um_find h (g_contexts w)) eqn:E.
  - rewrite um_find_erase, Z.eqb_refl. reflexivity.
  - exact E.
Qed.

Lemma default_handle_globals (w : World) : snd (default_handle w) = w.
Proof. reflexivity. Qed.

Lemma nativeGenerate_globals (w : World) (prompt : string) (n : jint) (t tp : jfloat) :
  g_contexts (snd (LlamaInference_nativeGenerate prompt n t tp w)) = g_contexts w /\
  g_next_handle (snd (LlamaInference_nativeGenerate prompt n t tp w)) = g_next_handle w.
Proof.
  unfold LlamaInference_nativeGenerate, bind.
  destruct (default_handle w) as [h w'] eqn:E.
  assert (w' = w) as -> by (rewrite <- (default_handle_globals w), E; reflexivity).
  destruct (Z.eqb h 0).
  - split; reflexivity.
  - apply generate_globals.
Qed.

(** ** Runs *)

Lemma snd_bind_ret {A B : Type} (m : @JNI M A) (f : A -> B) (w : World) :
  snd (bind m (fun a => ret (f a)) w) = snd (m w).
Proof.
  unfold bind, ret. destruct (m w); reflexivity.
Qed.

Lemma after_nil (w : World) : after [] w = w.
Proof. reflexivity. Qed.

Lemma after_cons (c : Call) (rest : list Call) (w : World) :
  after (c :: rest) w = after rest (snd (exec c w)).
Proof.
  unfold after. cbn [run]. unfold bind, ret.
  destruct (exec c w) as [v w1]. cbn [snd].
  destruct (run rest w1) as [vs w2]. reflexivity.
Qed.

Lemma after_app (l1 l2 : list Call) (w : World) :
  after (l1 ++ l2)%list w = after l2 (after l1 w).
Proof.
  revert w. induction l1 as [|c l1 IH]; intros w.
  - reflexivity.
  - cbn [app]. rewrite !after_cons. apply IH.
Qed.

(** The globals after one call: a call through [initModel] leaves those of
    [initModel]; [freeModel] those of [freeModel]; the two teardown calls
    clear the table; every other call leaves both globals alone. *)
Lemma exec_globals (c : Call) (w : World) :
  match c with
  | CallInitModel p | CallNativeLoadModel p _ _ =>
      g_contexts (snd (exec c w)) = g_contexts (snd (LlamaNative_initModel p w)) /\
      g_next_handle (snd (exec c w)) = g_next_handle (snd (LlamaNative_initModel p w))
  | CallFreeModel h =>
      g_contexts (snd (exec c w)) = g_contexts (snd (LlamaNative_freeModel h w)) /\
      g_next_handle (snd (exec c w)) = g_next_handle w
  | CallNativeUnloadModel | CallNativeCleanup =>
      g_contexts (snd (exec c w)) = um_clear (g_contexts w) /\
      g_next_handle (snd (exec c w)) = g_next_handle w
  | _ =>
      g_contexts (snd (exec c w)) = g_contexts w /\
      g_next_handle (snd (exec c w)) = g_next_handle w
  end.
Proof.
  destruct c as [p | h p n | h | | p nt nc | p n t tp | p n t cb | | | | | | ];
    cbn [exec]; rewrite ?snd_bind_ret.
  - split; reflexivity.
  - apply generate_globals.
  - split; [reflexivity | apply freeModel_globals].
  - split; reflexivity.
  - unfold LlamaInference_nativeLoadModel. rewrite snd_bind_ret. split; reflexivity.
  - apply nativeGenerate_globals.
  - apply nativeGenerate_globals.
  - split; reflexivity.
  - split; reflexivity.
  - split; reflexivity.
  - run_jni. destruct (um_empty (g_contexts w)); [split; reflexivity|].
    destruct (um_begin (g_contexts w)) as [[? ?]|]; split; reflexivity.
  - split; reflexivity.
  - split; reflexivity.
Qed.

(** The counter after one call. *)
Lemma exec_next_handle (c : Call) (w : World) :
  g_next_handle (snd (exec c w)) =
  match initModel_path c with
  | Some _ => wrap64 (g_next_handle w + 1)
  | None => g_next_handle w
  end.
Proof.
  pose proof (exec_globals c w) as H.
  destruct c; cbn [initModel_path]; destruct H as [_ H]; rewrite H;
    try reflexivity; apply initModel_unfold.
Qed.

(** An entry found after a call was there before it, or the call went
    through [initModel] and the entry is the one it made. *)
Lemma exec_present (c : Call) (w : World) (h : jlong) :
  um_find h (g_contexts (snd (exec c w))) <> None ->
  um_find h (g_contexts w) <> None \/
  exists p, initModel_path c = Some p /\ h = fst (LlamaNative_initModel p w).
Proof.
  pose proof (exec_globals c w) as H.
  destruct c as [p | h0 p n | h0 | | p nt nc | p n t tp | p n t cb | | | | | | ];
    destruct H as [H _]; rewrite H; clear H; try (left; assumption).
  - destruct (initModel_unfold w p) as (Hh & Hm & _). rewrite Hm, um_find_assign.
    destruct (Z.eqb_spec h (g_next_handle w)) as [-> | _].
    + right. exists p. split; [reflexivity | symmetry; exact Hh].
    + left; assumption.
  - destruct (freeModel_globals w h0) as [_ Hm]. rewrite Hm.
    destruct (um_find h0 (g_contexts w)); [|left; assumption].
    rewrite um_find_erase. destruct (Z.eqb h h0); [congruence | left; assumption].
  - destruct (initModel_unfold w p) as (Hh & Hm & _). rewrite Hm, um_find_assign.
    destruct (Z.eqb_spec h (g_next_handle w)) as [-> | _].
    + right. exists p. split; [reflexivity | symmetry; exact Hh].
    + left; assumption.
  - rewrite um_find_clear. congruence.
  - rewrite um_find_clear. congruence.
Qed.

(** The table only ever holds handles it held at the start or that
    [initModel] returned since. *)
Lemma present_after (calls : list Call) :
  forall (w : World) (h : jlong),
    um_find h (g_contexts (after calls w)) <> None ->
    um_find h (g_contexts w) <> None \/ In h (issued calls w).
Proof.
  induction calls as [|c rest IH]; intros w h Hpres.
  - left. exact Hpres.
  - rewrite after_cons in Hpres. cbn [issued].
    destruct (IH _ _ Hpres) as [Hmid | Hin].
    + destruct (exec_present c w h Hmid) as [Hold | (p & Hp & ->)].
      * left; exact Hold.
      * right. rewrite Hp. left; reflexivity.
    + right. destruct (initModel_path c); [right|]; exact Hin.
Qed.

Lemma wrap64_small (z : Z) :
  (- 2 ^ 63 <= z < 2 ^ 63)%Z -> wrap64 z = z.
Proof.
  intros Hz. unfold wrap64. rewrite Z.mod_small; lia.
Qed.

(** While the counter stays below [INT64_MAX], the handles of a run are
    distinct, and they lie between the counter before the run and the
    counter after it. *)
Lemma issued_range (calls : list Call) :
  forall w : World,
    (1 <= g_next_handle w)%Z ->
    (g_next_handle w + Z.of_nat (List.length calls) <= INT64_MAX)%Z ->
    NoDup (issued calls w) /\
    Forall (fun h => (g_next_handle w <= h < g_next_handle (after calls w))%Z)
           (issued calls w) /\
    (g_next_handle w <= g_next_handle (after calls w)
       <= g_next_handle w + Z.of_nat (List.length calls))%Z.
Proof.
  unfold INT64_MAX.
  induction calls as [|c rest IH]; intros w Hlo Hhi.
  - cbn [issued List.length]. rewrite after_nil.
    repeat split; [constructor | constructor | lia | cbn; lia].
  - rewrite after_cons. cbn [issued].
    cbn [List.length] in Hhi. rewrite Nat2Z.inj_succ in Hhi.
    pose proof (exec_next_handle c w) as Hn.
    assert (Hstep : (g_next_handle w <= g_next_handle (snd (exec c w))
                       <= g_next_handle w + 1)%Z).
    { rewrite Hn. destruct (initModel_path c); [rewrite wrap64_small|]; lia. }
    destruct (IH (snd (exec c w))) as (Hnd & Hall & Hbnd); [lia | lia |].
    cbn [List.length]. rewrite Nat2Z.inj_succ.
    destruct (initModel_path c) as [p|] eqn:Hp.
    + rewrite wrap64_small in Hn by lia.
      destruct (initModel_unfold w p) as (Hh & _). rewrite Hh.
      repeat split; try lia.
      * constructor; [|exact Hnd].
        intros Hin. rewrite Forall_forall in Hall. specialize (Hall _ Hin). lia.
      * constructor; [lia|].
        eapply Forall_impl; [|exact Hall]. cbn beta. intros a Ha. lia.
    + repeat split; try lia; [exact Hnd|].
      eapply Forall_impl; [|exact Hall]. cbn beta. intros a Ha. lia.
Qed.

(** ** The claims about handles *)

(** C1. In every run from the initial state, a handle that [initModel]
    never returned, or that was passed to [freeModel] and not returned
    again since, makes [generate] answer the fixed invalid-context string,
    whatever the prompt and the token budget, and the call leaves the
    handle table and the next-handle counter as they were. *)
Theorem generate_stale_handle (calls : list Call) (h : jlong)
    (prompt : string) (maxTokens : jint) :
  ~ In h (issued calls initial_world) \/ freed_not_reissued calls initial_world h ->
  let w := after calls initial_world in
  fst (LlamaNative_generate h prompt maxTokens w) =
    cstr "{`action`:`reply`,`message`:`Error: Model not loaded`,`data`:{}}" /\
  g_contexts (snd (LlamaNative_generate h prompt maxTokens w)) = g_contexts w /\
  g_next_handle (snd (LlamaNative_generate h prompt maxTokens w)) = g_next_handle w.
Proof.
  intros Hstale w.
  assert (Habs : um_find h (g_contexts w) = None).
  { destruct (um_find h (g_contexts w)) eqn:E; [exfalso | reflexivity].
    assert (Hpres : um_find h (g_contexts w) <> None) by congruence.
    destruct Hstale as [Hnever | (before & later & -> & Hnot)].
    - destruct (present_after _ _ _ Hpres) as [Hinit | Hin].
      + cbn in Hinit. rewrite um_find_new in Hinit. congruence.
      + exact (Hnever Hin).
    - subst w.
      replace (before ++ CallFreeModel h :: later)%list
        with ((before ++ [CallFreeModel h]) ++ later)%list in Hpres
        by (rewrite <- app_assoc; reflexivity).
      rewrite after_app in Hpres.
      destruct (present_after _ _ _ Hpres) as [Hmid | Hin].
      + rewrite after_app, after_cons, after_nil in Hmid.
        destruct (exec_globals (CallFreeModel h) (after before initial_world)) as [Hc _].
        rewrite Hc, freeModel_absent_after in Hmid. congruence.
      + exact (Hnot Hin). }
  split; [|apply generate_globals].
  rewrite (generate_absent _ _ _ _ Habs). reflexivity.
Qed.

(** C2. In every run from the initial state that is shorter than the range
    of the 64-bit counter, every handle [initModel] returns is strictly
    positive and no two calls return the same handle, whatever calls lie
    between them; and right after [initModel] returns [h] the table holds
    the new context under [h], so that [generate] on [h] answers with the
    reply of the stub and not with the model-not-loaded string. *)
Theorem initModel_fresh_handles (calls : list Call) :
  (Z.of_nat (List.length calls) < INT64_MAX)%Z ->
  Forall (fun h => (0 < h)%Z) (issued calls initial_world) /\
  NoDup (issued calls initial_world) /\
  forall (path prompt : string) (maxTokens : jint),
    let w := after calls initial_world in
    let h := fst (LlamaNative_initModel path w) in
    let w' := snd (LlamaNative_initModel path w) in
    (0 < h)%Z /\
    ~ In h (issued calls initial_world) /\
    um_find h (g_contexts w') = Some (ModelContext_new path) /\
    fst (LlamaNative_generate h prompt maxTokens w') = classify prompt /\
    fst (LlamaNative_generate h prompt maxTokens w') <> invalid_context_response.
Proof.
  intros Hlen.
  destruct (issued_range calls initial_world) as (Hnd & Hall & Hbnd);
    [cbn; lia | cbn [initial_world g_next_handle]; lia |].
  cbn [initial_world g_next_handle] in Hall, Hbnd.
  split; [|split; [exact Hnd|]].
  - eapply Forall_impl; [|exact Hall]. cbn beta. intros a Ha. lia.
  - intros path prompt maxTokens w h w'.
    destruct (initModel_unfold w path) as (Hh & Hm & _).
    fold h in Hh. fold w' in Hm.
    assert (Hfind : um_find h (g_contexts w') = Some (ModelContext_new path)).
    { rewrite Hm, um_find_assign, Hh, Z.eqb_refl. reflexivity. }
    assert (Hgen : fst (LlamaNative_generate h prompt maxTokens w') = classify prompt).
    { apply generate_present. rewrite Hfind. discriminate. }
    repeat split.
    + rewrite Hh. subst w. lia.
    + intros Hin. rewrite Forall_forall in Hall. specialize (Hall _ Hin).
      rewrite Hh in Hall. subst w. lia.
    + exact Hfind.
    + exact Hgen.
    + rewrite Hgen. apply classify_not_invalid.
Qed.

(** ** The claims about the replies *)

(** C3, as the code has it.  On a valid handle the prompt [show my status]
    gets the fixed list reply, with action [reply]: it contains [show], and
    the list rule comes before the progress rule.  A prompt that matches
    the progress rule and none before it, such as [my status], gets action
    [show_progress]: every prompt whose first matching rule is the list
    rule gets the list reply, and every prompt whose first matching rule
    is the progress rule gets the progress reply. *)
Theorem show_my_status_is_list_reply (w : World) (h : jlong) (maxTokens : jint) :
  um_find h (g_contexts w) <> None ->
  matched_rule "show my status" = RuleList /\
  fst (LlamaNative_generate h "show my status" maxTokens w) = list_response /\
  action_of (fst (LlamaNative_generate h "show my status" maxTokens w)) = Some "reply" /\
  action_of (fst (LlamaNative_generate h "my status" maxTokens w)) = Some "show_progress" /\
  (forall prompt,
     matched_rule prompt = RuleList ->
     fst (LlamaNative_generate h prompt maxTokens w) = list_response /\
     action_of (fst (LlamaNative_generate h prompt maxTokens w)) = Some "reply") /\
  (forall prompt,
     matched_rule prompt = RuleProgress ->
     fst (LlamaNative_generate h prompt maxTokens w) = progress_response /\
     action_of (fst (LlamaNative_generate h prompt maxTokens w)) = Some "show_progress").
Proof.
  intros Hvalid.
  split; [vm_compute; reflexivity|].
  split; [rewrite (generate_present _ _ _ _ Hvalid); vm_compute; reflexivity|].
  split; [rewrite (generate_present _ _ _ _ Hvalid); vm_compute; reflexivity|].
  split; [rewrite (generate_present _ _ _ _ Hvalid); vm_compute; reflexivity|].
  split; intros prompt Hrule;
    rewrite (generate_present _ _ _ _ Hvalid), classify_by_rule, Hrule;
    split; vm_compute; reflexivity.
Qed.

(** C4. On a valid handle, a prompt that matches the create-goal, the
    create-task or the complete-task rule is answered with the template of
    the rule filled with the extracted title.  The title is the text of the
    original prompt strictly between the first double quote and the next
    one (a prompt with two double quotes or more always splits that way);
    with fewer than two double quotes in the prompt it is the default of
    the rule.  The prompt [Create a goal for] followed by [Learn Spanish]
    between double quotes yields action [create_goal] with [goalTitle]
    equal to [Learn Spanish]. *)
Theorem quoted_title_extraction (w : World) (h : jlong) (maxTokens : jint)
    (prompt : string) :
  um_find h (g_contexts w) <> None ->
  let response := fst (LlamaNative_generate h prompt maxTokens w) in
  (matched_rule prompt = RuleCreateGoal ->
     response = create_goal_response (extract_quoted prompt "New Goal")) /\
  (matched_rule prompt = RuleCreateTask ->
     response = create_task_response (extract_quoted prompt "New Task")) /\
  (matched_rule prompt = RuleCompleteTask ->
     response = complete_task_response (extract_quoted prompt "task")) /\
  (forall dflt, count_char dquote prompt < 2 -> extract_quoted prompt dflt = dflt) /\
  (forall dflt a t rest,
     prompt = a ++ String dquote (t ++ String dquote rest) ->
     count_char dquote a = 0 -> count_char dquote t = 0 ->
     extract_quoted prompt dflt = t) /\
  (2 <= count_char dquote prompt ->
   exists a t rest,
     prompt = a ++ String dquote (t ++ String dquote rest) /\
     count_char dquote a = 0 /\ count_char dquote t = 0) /\
  let example :=
    fst (LlamaNative_generate h (cstr "Create a goal for `Learn Spanish`") maxTokens w) in
  action_of example = Some "create_goal" /\
  data_field "goalTitle" example = Some (JString "Learn Spanish").
Proof.
  intros Hvalid response. subst response.
  rewrite !(generate_present _ _ _ _ Hvalid), classify_by_rule.
  split; [intros ->; reflexivity|].
  split; [intros ->; reflexivity|].
  split; [intros ->; reflexivity|].
  split; [intros dflt; apply extract_quoted_default|].
  split; [intros dflt a t rest -> Ha Ht; apply extract_quoted_between; assumption|].
  split; [apply two_quotes_split|].
  split; vm_compute; reflexivity.
Qed.

(** C5, where the code goes wrong.  The title is copied into the reply as
    it stands.  On a valid handle the prompt [create goal] followed by
    the title [C:\] between double quotes is answered with a string in
    which the backslash of the title swallows the closing quote of each
    JSON string it ends: the reply is not a JSON text, and so not a
    response of the schema. *)
Theorem backslash_title_breaks_json (w : World) (h : jlong) (maxTokens : jint) :
  um_find h (g_contexts w) <> None ->
  let response := fst (LlamaNative_generate h (cstr "create goal `C:\`") maxTokens w) in
  response =
    cstr "{`action`:`create_goal`,`message`:`I'll create a goal for C:\`,`data`:{`goalTitle`:`C:\`,`durationMonths`:3,`dailyMinutes`:30}}" /\
  json_parse response = Malformed /\
  valid_response response = false.
Proof.
  intros Hvalid response. subst response.
  rewrite (generate_present _ _ _ _ Hvalid).
  repeat split; vm_compute; reflexivity.
Qed.

(** ** The claims about the legacy entry points *)

(** While the counter stays below [INT64_MAX], 0 is no registered
    handle. *)
Lemma zero_not_registered (calls : list Call) :
  (Z.of_nat (List.length calls) < INT64_MAX)%Z ->
  um_find 0%Z (g_contexts (after calls initial_world)) = None.
Proof.
  intros Hlen.
  destruct (um_find 0%Z (g_contexts (after calls initial_world))) eqn:E;
    [exfalso | reflexivity].
  assert (Hpres : um_find 0%Z (g_contexts (after calls initial_world)) <> None)
    by congruence.
  destruct (present_after _ _ _ Hpres) as [Hinit | Hin].
  - cbn in Hinit. rewrite um_find_new in Hinit. congruence.
  - destruct (issued_range calls initial_world) as (_ & Hall & _);
      [cbn; lia | cbn [initial_world g_next_handle]; lia |].
    rewrite Forall_forall in Hall. specialize (Hall _ Hin).
    cbn [initial_world g_next_handle] in Hall. lia.
Qed.

(** C6, as the code has it.  In every state a run from the initial state
    reaches (the counter staying in range) in which a context is
    registered, [nativeGenerate] and [nativeGetModelInfo] resolve the
    current context as the entry [g_contexts.begin()] points to: a
    registered handle, the same for both, which the iteration order of the
    table picks. *)
Theorem legacy_current_is_begin (calls : list Call) (prompt : string)
    (maxTokens : jint) (temperature topP : jfloat) :
  (Z.of_nat (List.length calls) < INT64_MAX)%Z ->
  let w := after calls initial_world in
  um_empty (g_contexts w) = false ->
  exists h ctx,
    um_begin (g_contexts w) = Some (h, ctx) /\
    um_find h (g_contexts w) = Some ctx /\
    fst (default_handle w) = h /\
    LlamaInference_nativeGenerate prompt maxTokens temperature topP w =
      LlamaNative_generate h prompt maxTokens w /\
    fst (LlamaInference_nativeGetModelInfo w) = model_info ctx.
Proof.
  intros Hlen w Hne.
  pose proof (zero_not_registered calls Hlen) as Hzero. fold w in Hzero.
  destruct (um_begin (g_contexts w)) as [[h ctx]|] eqn:Hb.
  - exists h, ctx. pose proof (um_begin_find _ _ _ Hb) as Hfind.
    assert (Hh : Z.eqb h 0 = false).
    { apply Z.eqb_neq. intros ->. congruence. }
    assert (Hd : default_handle w = (h, w)).
    { unfold default_handle, contexts, bind, ret. rewrite Hne, Hb. reflexivity. }
    repeat split; try assumption.
    + rewrite Hd. reflexivity.
    + unfold LlamaInference_nativeGenerate, bind. rewrite Hd, Hh. reflexivity.
    + unfold LlamaInference_nativeGetModelInfo, contexts, bind, ret.
      rewrite Hne, Hb. reflexivity.
  - apply um_empty_begin in Hb. congruence.
Qed.

Lemma generate_effects (w : World) (h : jlong) (prompt : string) (n : jint) :
  exists new,
    effects (snd (LlamaNative_generate h prompt n w)) = (effects w ++ new)%list /\
    forallb (fun e => negb (is_callback_call e)) new = true.
Proof.
  rewrite generate_unfold. cbv zeta.
  destruct (um_find h (g_contexts w)); cbn [snd effects];
    rewrite <- !app_assoc; eexists; split; reflexivity.
Qed.

(** C7. [nativeGenerateWithCallback] returns what [nativeGenerate] returns
    for the same prompt, token budget and temperature and a top-p of 0.9
    in the same state, and leaves the same state behind; the response is
    delivered once, as the return value: the lines the call adds to the
    effects are log lines, none is a call of the sink. *)
Theorem generateWithCallback_is_generate (w : World) (prompt : string)
    (maxTokens : jint) (temperature : jfloat) (sink : jobject) :
  LlamaInference_nativeGenerateWithCallback prompt maxTokens temperature sink w =
    LlamaInference_nativeGenerate prompt maxTokens temperature float_0_9 w /\
  exists new,
    effects (snd (LlamaInference_nativeGenerateWithCallback
                    prompt maxTokens temperature sink w)) = (effects w ++ new)%list /\
    forallb (fun e => negb (is_callback_call e)) new = true.
Proof.
  split; [reflexivity|].
  unfold LlamaInference_nativeGenerateWithCallback, LlamaInference_nativeGenerate, bind.
  destruct (default_handle w) as [h w'] eqn:E.
  assert (w' = w) as -> by (rewrite <- (default_handle_globals w), E; reflexivity).
  destruct (Z.eqb h 0).
  - exists []. split; [cbn; rewrite app_nil_r; reflexivity | reflexivity].
  - apply generate_effects.
Qed.

(** C8. [freeModel h] touches no entry but that of [h]: every other handle
    finds what it found before, and the counter stays.  When [h] is not in
    the table the call changes neither global and hands nothing back; all
    that is left of it are two log lines. *)
Theorem freeModel_frame (w : World) (h : jlong) :
  let w' := snd (LlamaNative_freeModel h w) in
  (forall h', h' <> h -> um_find h' (g_contexts w') = um_find h' (g_contexts w)) /\
  um_find h (g_contexts w') = None /\
  g_next_handle w' = g_next_handle w /\
  (um_find h (g_contexts w) = None ->
   LlamaNative_freeModel h w =
     (tt, {| g_contexts := g_contexts w;
             g_next_handle := g_next_handle w;
             effects :=
               ((effects w ++
                 [LogPrint ANDROID_LOG_INFO
                    "LlamaNative.freeModel called - handle: %lld" [ArgInt h]]) ++
                 [LogPrint ANDROID_LOG_ERROR
                    "Invalid context handle: %lld" [ArgInt h]])%list |})).
Proof.
  intros w'. subst w'.
  destruct (freeModel_globals w h) as [Hn Hm].
  repeat split.
  - intros h' Hne. rewrite Hm.
    destruct (um_find h (g_contexts w)); [|reflexivity].
    rewrite um_find_erase. apply Z.eqb_neq in Hne. rewrite Hne. reflexivity.
  - apply freeModel_absent_after.
  - exact Hn.
  - intros Habs. run_jni. rewrite Habs. reflexivity.
Qed.

(** C10. The response of [generate] is the same for every token budget,
    on every handle, and the response of [nativeGenerate] is the same for
    every token budget, temperature and top-p: the three parameters only
    reach the log. *)
Theorem generation_parameters_ignored (w : World) (h : jlong) (prompt : string)
    (n n' : jint) (t t' tp tp' : jfloat) :
  fst (LlamaNative_generate h prompt n w) = fst (LlamaNative_generate h prompt n' w) /\
  fst (LlamaInference_nativeGenerate prompt n t tp w) =
    fst (LlamaInference_nativeGenerate prompt n' t' tp' w).
Proof.
  assert (Hgen : forall k, fst (LlamaNative_generate k prompt n w) =
                           fst (LlamaNative_generate k prompt n' w)).
  { intros k. rewrite !generate_unfold. cbv zeta.
    destruct (um_find k (g_contexts w)); reflexivity. }
  split; [apply Hgen|].
  unfold LlamaInference_nativeGenerate, bind.
  destruct (default_handle w) as [k w'] eqn:E.
  assert (w' = w) as -> by (rewrite <- (default_handle_globals w), E; reflexivity).
  destruct (Z.eqb k 0); [reflexivity | apply Hgen].
Qed.

End BridgeFacts.

(** ** The list implementation meets the interface *)

Lemma fm_find_replace {V : Type} (k k' : Z) (v : V) (m : FrontMap V) :
  fm_find k' (fm_replace k v m) =
  if Z.eqb k' k
  then match fm_find k m with Some _ => Some v | None => None end
  else fm_find k' m.
Proof.
  induction m as [|[k0 v0] rest IH]; cbn [fm_replace fm_find].
  - destruct (Z.eqb k' k); reflexivity.
  - destruct (Z.eqb_spec k k0) as [-> | Hne]; cbn [fm_find].
    + destruct (Z.eqb k' k0); reflexivity.
    + rewrite IH. destruct (Z.eqb_spec k' k) as [-> | Hne'].
      * destruct (Z.eqb_spec k k0); [contradiction | reflexivity].
      * reflexivity.
Qed.

Lemma fm_find_assign {V : Type} (k k' : Z) (v : V) (m : FrontMap V) :
  fm_find k' (fm_assign k v m) = if Z.eqb k' k then Some v else fm_find k' m.
Proof.
  unfold fm_assign. destruct (fm_find k m) eqn:E.
  - rewrite fm_find_replace, E. reflexivity.
  - reflexivity.
Qed.

Lemma fm_find_erase {V : Type} (k k' : Z) (m : FrontMap V) :
  fm_find k' (fm_erase k m) = if Z.eqb k' k then None else fm_find k' m.
Proof.
  induction m as [|[k0 v0] rest IH]; cbn [fm_erase fm_find].
  - destruct (Z.eqb k' k); reflexivity.
  - destruct (Z.eqb_spec k k0) as [-> | Hne]; cbn [fm_find]; rewrite IH.
    + destruct (Z.eqb k' k0); reflexivity.
    + destruct (Z.eqb_spec k' k) as [-> | Hne'].
      * destruct (Z.eqb_spec k k0); [contradiction | reflexivity].
      * reflexivity.
Qed.

Lemma fm_begin_find {V : Type} (m : FrontMap V) (k : Z) (v : V) :
  fm_begin m = Some (k, v) -> fm_find k m = Some v.
Proof.
  destruct m as [|[k0 v0] rest]; cbn; [discriminate|].
  intros [= -> ->]. rewrite Z.eqb_refl. reflexivity.
Qed.

Lemma fm_begin_none {V : Type} (m : FrontMap V) :
  fm_begin m = None -> forall k, fm_find k m = None.
Proof.
  destruct m; [reflexivity | discriminate].
Qed.

Lemma fm_empty_begin {V : Type} (m : FrontMap V) :
  fm_empty m = true <-> fm_begin m = None.
Proof.
  destruct m; cbn; split; (reflexivity || discriminate).
Qed.

#[export] Instance FrontMap_UnorderedMap (V : Type) : UnorderedMap V (FrontMap V) := {|
  um_new := [];
  um_find := fm_find;
  um_assign := fm_assign;
  um_erase := fm_erase;
  um_clear := fun _ => [];
  um_empty := fm_empty;
  um_begin := fm_begin;
  um_find_new := fun _ => eq_refl;
  um_find_assign := fun k k' v m => fm_find_assign k k' v m;
  um_find_erase := fun k k' m => fm_find_erase k k' m;
  um_find_clear := fun _ _ => eq_refl;
  um_begin_find := fm_begin_find;
  um_begin_none := fm_begin_none;
  um_empty_begin := fm_empty_begin
|}.

(** ** Runs on the list implementation *)

(** The state in which a run of the library on the list implementation
    starts. *)
Definition start : @World (FrontMap ModelContext) := initial_world.

(** C1 at work: the handle 1 is issued and freed; [generate] on it gets
    the invalid-context string. *)
Lemma generate_stale_handle_witness :
  let calls := [CallInitModel "model.gguf"; CallFreeModel 1%Z] in
  freed_not_reissued calls start 1%Z /\
  fst (LlamaNative_generate 1%Z "add task" 64%Z (after calls start)) =
    cstr "{`action`:`reply`,`message`:`Error: Model not loaded`,`data`:{}}".
Proof.
  intros calls.
  assert (H : freed_not_reissued calls start 1%Z).
  { exists [CallInitModel "model.gguf"], []. split; [reflexivity|]. intros []. }
  split; [exact H|].
  apply (generate_stale_handle calls 1%Z "add task" 64%Z (or_intror H)).
Defined.

(** C2 at work on a run that frees a handle between two [initModel]. *)
Lemma initModel_fresh_handles_witness :
  let calls := [CallInitModel "a.gguf"; CallFreeModel 1%Z; CallInitModel "b.gguf"] in
  (Z.of_nat (List.length calls) < INT64_MAX)%Z /\
  issued calls start = [1%Z; 2%Z] /\
  NoDup (issued calls start).
Proof.
  intros calls.
  assert (H : (Z.of_nat (List.length calls) < INT64_MAX)%Z) by (vm_compute; reflexivity).
  split; [exact H|]. split; [vm_compute; reflexivity|].
  apply (initModel_fresh_handles (M := FrontMap ModelContext) calls H).
Defined.

(** The state after one model was loaded; its handle is 1. *)
Definition loaded : @World (FrontMap ModelContext) :=
  after [CallInitModel "model.gguf"] start.

Lemma loaded_valid : um_find 1%Z (g_contexts loaded) <> None.
Proof. vm_compute. discriminate. Defined.

(** C3 refuted: on the valid handle 1 the prompt [show my status] gets
    action [reply], not [show_progress]. *)
Lemma show_my_status_not_show_progress :
  um_find 1%Z (g_contexts loaded) = Some (ModelContext_new "model.gguf") /\
  action_of (fst (LlamaNative_generate 1%Z "show my status" 64%Z loaded)) = Some "reply" /\
  action_of (fst (LlamaNative_generate 1%Z "show my status" 64%Z loaded))
    <> Some "show_progress".
Proof.
  split; [vm_compute; reflexivity|].
  split; [vm_compute; reflexivity|].
  vm_compute. discriminate.
Qed.

Lemma show_my_status_is_list_reply_witness :
  um_find 1%Z (g_contexts loaded) <> None /\
  action_of (fst (LlamaNative_generate 1%Z "my status" 64%Z loaded)) = Some "show_progress".
Proof.
  split; [exact loaded_valid|].
  destruct (show_my_status_is_list_reply loaded 1%Z 64%Z loaded_valid)
    as (_ & _ & _ & Hprogress & _).
  exact Hprogress.
Defined.

Lemma quoted_title_extraction_witness :
  um_find 1%Z (g_contexts loaded) <> None /\
  data_field "goalTitle"
    (fst (LlamaNative_generate 1%Z (cstr "Create a goal for `Learn Spanish`") 64%Z loaded))
  = Some (JString "Learn Spanish").
Proof.
  split; [exact loaded_valid|].
  apply (quoted_title_extraction loaded 1%Z 64%Z "add task" loaded_valid).
Defined.

Lemma backslash_title_breaks_json_witness :
  um_find 1%Z (g_contexts loaded) <> None /\
  valid_response
    (fst (LlamaNative_generate 1%Z (cstr "create goal `C:\`") 64%Z loaded)) = false.
Proof.
  split; [exact loaded_valid|].
  apply (backslash_title_breaks_json loaded 1%Z 64%Z loaded_valid).
Defined.

(** The state after two models were loaded; their handles are 1 and 2. *)
Definition two_loaded : @World (FrontMap ModelContext) :=
  after [CallInitModel "a.gguf"; CallInitModel "b.gguf"] start.

(** C6 refuted: with the handles 1 and 2 registered, the legacy entry
    points resolve the current context to handle 2, the entry at
    [begin()], and not to the smallest handle 1: [nativeGenerate] runs
    [generate] on 2, and [nativeGetModelInfo] describes the model of
    handle 2. *)
Lemma legacy_current_not_smallest :
  um_find 1%Z (g_contexts two_loaded) = Some (ModelContext_new "a.gguf") /\
  um_find 2%Z (g_contexts two_loaded) = Some (ModelContext_new "b.gguf") /\
  fst (default_handle two_loaded) = 2%Z /\
  LlamaInference_nativeGenerate "help" 64%Z 0%Z 0%Z two_loaded =
    LlamaNative_generate 2%Z "help" 64%Z two_loaded /\
  LlamaInference_nativeGenerate "help" 64%Z 0%Z 0%Z two_loaded <>
    LlamaNative_generate 1%Z "help" 64%Z two_loaded /\
  fst (LlamaInference_nativeGetModelInfo two_loaded) =
    cstr "{`status`:`loaded`,`path`:`b.gguf`,`contextSize`:2048,`threads`:4}" /\
  fst (LlamaInference_nativeGetModelInfo two_loaded) <>
    model_info (ModelContext_new "a.gguf").
Proof.
  repeat split; try (vm_compute; reflexivity); vm_compute; discriminate.
Qed.

Lemma legacy_current_is_begin_witness :
  let calls := [CallInitModel "a.gguf"; CallInitModel "b.gguf"] in
  (Z.of_nat (List.length calls) < INT64_MAX)%Z /\
  um_empty (g_contexts (after calls start)) = false /\
  exists h ctx,
    um_begin (g_contexts (after calls start)) = Some (h, ctx) /\
    um_find h (g_contexts (after calls start)) = Some ctx /\
    fst (default_handle (after calls start)) = h /\
    LlamaInference_nativeGenerate "help" 64%Z 0%Z 0%Z (after calls start) =
      LlamaNative_generate h "help" 64%Z (after calls start) /\
    fst (LlamaInference_nativeGetModelInfo (after calls start)) = model_info ctx.
Proof.
  intros calls.
  assert (H1 : (Z.of_nat (List.length calls) < INT64_MAX)%Z) by (vm_compute; reflexivity).
  assert (H2 : um_empty (g_contexts (after calls start)) = false) by (vm_compute; reflexivity).
  split; [exact H1|]. split; [exact H2|].
  apply (legacy_current_is_begin calls "help" 64%Z 0%Z 0%Z H1 H2).
Defined.

(** * Further properties of the entry points *)

(** ** The table and the counter along a run *)


Lemma model_info_new (path : string) :
  model_info (ModelContext_new path) =
  cstr "{`status`:`loaded`,`path`:`" ++ path ++ cstr "`,`contextSize`:2048,`threads`:4}".
Proof. reflexivity. Qed.

Section BridgeMore.

Context {M : Type} {UM : UnorderedMap ModelContext M}.

Ltac unfold_jni :=
  unfold LlamaInference_nativeCleanup, LlamaInference_nativeUnloadModel,
    LlamaInference_nativeGenerateWithCallback, LlamaInference_nativeGenerate,
    LlamaInference_nativeLoadModel, LlamaInference_nativeInit,
    LlamaInference_nativeIsModelLoaded, LlamaInference_nativeGetModelInfo,
    LlamaNative_initModel, LlamaNative_generate, LlamaNative_freeModel,
    default_handle, allocateHandle, update_contexts, contexts,
    LOGI, LOGE, LOGD, emit, bind, ret;
  cbn [fst snd g_contexts g_next_handle effects].

(** [empty()] answers whether some key is found. *)
Lemma um_empty_false_iff (m : M) :
  um_empty m = false <-> exists k, um_find k m <> None.
Proof.
  split.
  - intros He. destruct (um_begin m) as [[k v]|] eqn:Hb.
    + exists k. rewrite (um_begin_find _ _ _ Hb). discriminate.
    + apply um_empty_begin in Hb. congruence.
  - intros [k Hk]. destruct (um_empty m) eqn:He; [|reflexivity].
    apply um_empty_begin in He. rewrite (um_begin_none _ He k) in Hk. congruence.
Qed.

Lemma um_empty_clear (m : M) : um_empty (um_clear m) = true.
Proof.
  destruct (um_empty (um_clear m)) eqn:He; [reflexivity|].
  apply um_empty_false_iff in He as [k Hk]. rewrite um_find_clear in Hk. congruence.
Qed.


(** A context found after a call was there before it, or the call went
    through [initModel] and the context is the one the constructor made
    from its path. *)
Lemma exec_context (c : Call) (w : World) (h : jlong) (ctx : ModelContext) :
  um_find h (g_contexts (snd (exec c w))) = Some ctx ->
  um_find h (g_contexts w) = Some ctx \/
  exists p, initModel_path c = Some p /\ ctx = ModelContext_new p.
Proof.
  pose proof (exec_globals c w) as H.
  destruct c as [p | h0 p n | h0 | | p nt nc | p n t tp | p n t cb | | | | | | ];
    destruct H as [H _]; rewrite H; clear H; try (left; assumption).
  - destruct (initModel_unfold w p) as (_ & Hm & _). rewrite Hm, um_find_assign.
    destruct (Z.eqb h (g_next_handle w)).
    + intros [= <-]. right. exists p. split; reflexivity.
    + left; assumption.
  - destruct (freeModel_globals w h0) as [_ Hm]. rewrite Hm.
    destruct (um_find h0 (g_contexts w)); [|left; assumption].
    rewrite um_find_erase. destruct (Z.eqb h h0); [discriminate | left; assumption].
  - destruct (initModel_unfold w p) as (_ & Hm & _). rewrite Hm, um_find_assign.
    destruct (Z.eqb h (g_next_handle w)).
    + intros [= <-]. right. exists p. split; reflexivity.
    + left; assumption.
  - rewrite um_find_clear. discriminate.
  - rewrite um_find_clear. discriminate.
Qed.

Lemma context_after (calls : list Call) :
  forall (w : World) (h : jlong) (ctx : ModelContext),
    um_find h (g_contexts (after calls w)) = Some ctx ->
    um_find h (g_contexts w) = Some ctx \/
    exists p, In p (paths calls) /\ ctx = ModelContext_new p.
Proof.
  induction calls as [|c rest IH]; intros w h ctx Hf.
  - left. exact Hf.
  - rewrite after_cons in Hf.
    assert (Hsplit : paths (c :: rest) =
              ((match initModel_path c with Some p => [p] | None => [] end)
                 ++ paths rest)%list) by reflexivity.
    rewrite Hsplit.
    destruct (IH _ _ _ Hf) as [Hmid | (p & Hin & ->)].
    + destruct (exec_context c w h ctx Hmid) as [Hold | (p & Hp & ->)].
      * left; exact Hold.
      * right. exists p. split; [|reflexivity]. rewrite Hp.
        apply in_or_app. left. left. reflexivity.
    + right. exists p. split; [|reflexivity]. apply in_or_app. right. exact Hin.
Qed.

(** While the counter stays below [INT64_MAX], the handles of a run are
    the consecutive integers from the counter on, one for each call that
    goes through [initModel]. *)
Lemma issued_consecutive (calls : list Call) :
  forall w : World,
    (1 <= g_next_handle w)%Z ->
    (g_next_handle w + Z.of_nat (List.length calls) <= INT64_MAX)%Z ->
    issued calls w = handles_from (g_next_handle w) (List.length (paths calls)) /\
    g_next_handle (after calls w) =
      (g_next_handle w + Z.of_nat (List.length (paths calls)))%Z /\
    (List.length (paths calls) <= List.length calls)%nat.
Proof.
  unfold INT64_MAX.
  induction calls as [|c rest IH]; intros w Hlo Hhi.
  - rewrite after_nil. cbn. repeat split; lia.
  - rewrite after_cons.
    cbn [List.length] in Hhi. rewrite Nat2Z.inj_succ in Hhi.
    pose proof (exec_next_handle c w) as Hn.
    assert (Hsplit : paths (c :: rest) =
              ((match initModel_path c with Some p => [p] | None => [] end)
                 ++ paths rest)%list) by reflexivity.
    rewrite Hsplit. cbn [issued]. cbn [List.length].
    destruct (initModel_path c) as [p|] eqn:Hp.
    + rewrite wrap64_small in Hn by lia.
      destruct (IH (snd (exec c w))) as (Hi & Hnext & Hlen); [lia | lia |].
      destruct (initModel_unfold w p) as (Hh & _). rewrite Hh, Hi, Hnext, Hn.
      cbn [app List.length handles_from]. rewrite Nat2Z.inj_succ.
      repeat split; lia.
    + destruct (IH (snd (exec c w))) as (Hi & Hnext & Hlen); [lia | lia |].
      rewrite Hi, Hnext, Hn. cbn [app]. repeat split; lia.
Qed.

Lemma in_handles_from (k : nat) :
  forall first h, In h (handles_from first k) <-> (first <= h < first + Z.of_nat k)%Z.
Proof.
  induction k as [|k IH]; intros first h; cbn [handles_from In].
  - cbn. lia.
  - rewrite IH, Nat2Z.inj_succ. lia.
Qed.

(** ** Handles *)

(** X1. In a run from the initial state that stays within the range of
    the counter, the handles [initModel] returns are 1, 2, 3, ... in call
    order, one for each call that goes through [initModel], whatever is
    freed or unloaded in between; the counter ends one above their number,
    and every handle registered at the end is one of them. *)
Theorem handles_are_consecutive (calls : list Call) :
  (Z.of_nat (List.length calls) < INT64_MAX)%Z ->
  let k := List.length (paths calls) in
  issued calls initial_world = handles_from 1 k /\
  g_next_handle (after calls initial_world) = (1 + Z.of_nat k)%Z /\
  forall h, um_find h (g_contexts (after calls initial_world)) <> None ->
            (1 <= h <= Z.of_nat k)%Z.
Proof.
  intros Hlen k.
  destruct (issued_consecutive calls initial_world) as (Hi & Hn & _);
    [cbn; lia | cbn [initial_world g_next_handle]; lia |].
  cbn [initial_world g_next_handle] in Hi, Hn. fold k in Hi, Hn.
  split; [exact Hi|]. split; [exact Hn|].
  intros h Hpres.
  destruct (present_after _ _ _ Hpres) as [Hinit | Hin].
  - cbn in Hinit. rewrite um_find_new in Hinit. congruence.
  - rewrite Hi in Hin. apply in_handles_from in Hin. lia.
Qed.

(** X2. [initModel] followed by [freeModel] on the handle it returned, in
    a state a run reaches that leaves the counter room for one more handle,
    leaves every lookup of the table as it was before the two calls; the
    counter is one higher, so the handle is not given out again. *)
Theorem initModel_freeModel_round_trip (calls : list Call) (path : string) :
  (Z.of_nat (List.length calls) + 1 < INT64_MAX)%Z ->
  let w := after calls initial_world in
  let h := fst (LlamaNative_initModel path w) in
  let w' := snd (LlamaNative_freeModel h (snd (LlamaNative_initModel path w))) in
  (forall h', um_find h' (g_contexts w') = um_find h' (g_contexts w)) /\
  g_next_handle w' = (g_next_handle w + 1)%Z /\
  fst (LlamaNative_initModel path w') <> h.
Proof.
  intros Hlen w h w'.
  destruct (issued_consecutive calls initial_world) as (Hi & Hn & Hk);
    [cbn; lia | cbn [initial_world g_next_handle]; lia |].
  cbn [initial_world g_next_handle] in Hi, Hn. fold w in Hn.
  destruct (initModel_unfold w path) as (Hh & Hm & Hnx). fold h in Hh.
  destruct (freeModel_globals (snd (LlamaNative_initModel path w)) h) as [Hfn Hfm].
  fold w' in Hfn, Hfm.
  assert (Hnew : um_find h (g_contexts (snd (LlamaNative_initModel path w)))
                 = Some (ModelContext_new path)).
  { rewrite Hm, um_find_assign, Hh, Z.eqb_refl. reflexivity. }
  rewrite Hnew in Hfm.
  assert (Hfresh : um_find h (g_contexts w) = None).
  { destruct (um_find h (g_contexts w)) eqn:E; [exfalso | reflexivity].
    assert (Hpres : um_find h (g_contexts w) <> None) by congruence.
    destruct (present_after _ _ _ Hpres) as [Hinit | Hin].
    - cbn in Hinit. rewrite um_find_new in Hinit. congruence.
    - rewrite Hi in Hin. apply in_handles_from in Hin. lia. }
  assert (Hnext : g_next_handle w' = (g_next_handle w + 1)%Z).
  { rewrite Hfn, Hnx. apply wrap64_small. unfold INT64_MAX in Hlen. lia. }
  repeat split.
  - intros h'. rewrite Hfm, um_find_erase, Hm, um_find_assign, Hh.
    destruct (Z.eqb_spec h' (g_next_handle w)) as [-> | _]; [|reflexivity].
    rewrite <- Hh. symmetry. exact Hfresh.
  - exact Hnext.
  - destruct (initModel_unfold w' path) as (Hh' & _). rewrite Hh', Hnext, Hh. lia.
Qed.

(** X3. Freeing a handle twice is harmless: the second [freeModel] leaves
    the table and the counter as the first left them, and all it adds is
    the line that reports the call and the line that reports the invalid
    handle. *)
Theorem freeModel_twice (w : World) (h : jlong) :
  let w1 := snd (LlamaNative_freeModel h w) in
  let w2 := snd (LlamaNative_freeModel h w1) in
  g_contexts w2 = g_contexts w1 /\
  g_next_handle w2 = g_next_handle w /\
  effects w2 =
    (effects w1 ++
     [LogPrint ANDROID_LOG_INFO "LlamaNative.freeModel called - handle: %lld" [ArgInt h];
      LogPrint ANDROID_LOG_ERROR "Invalid context handle: %lld" [ArgInt h]])%list.
Proof.
  intros w1 w2.
  pose proof (freeModel_absent_after w h) as Habs. fold w1 in Habs.
  destruct (freeModel_globals w h) as [Hn1 _]. fold w1 in Hn1.
  subst w2. unfold_jni. rewrite Habs. cbn [snd g_contexts g_next_handle effects].
  rewrite <- app_assoc. repeat split. exact Hn1.
Qed.

(** X4. [generate] answers with the model-not-loaded string exactly when
    its handle is not registered: no prompt makes the stub produce that
    string on a registered handle. *)
Theorem generate_error_iff_unregistered (w : World) (h : jlong) (prompt : string)
    (maxTokens : jint) :
  fst (LlamaNative_generate h prompt maxTokens w) = invalid_context_response <->
  um_find h (g_contexts w) = None.
Proof.
  split.
  - intros Hr. destruct (um_find h (g_contexts w)) eqn:E; [exfalso | reflexivity].
    rewrite generate_present in Hr by congruence.
    exact (classify_not_invalid _ Hr).
  - apply generate_absent.
Qed.

(** ** Contexts *)

(** X5. Every context a run from the initial state leaves registered is
    the one the constructor makes from a path the run handed to
    [initModel] or [nativeLoadModel]: it is marked loaded, with context
    size 2048 and 4 threads, whatever thread count and context size
    [nativeLoadModel] was given. *)
Theorem registered_contexts_are_default (calls : list Call) (h : jlong)
    (ctx : ModelContext) :
  um_find h (g_contexts (after calls initial_world)) = Some ctx ->
  In (modelPath ctx) (paths calls) /\
  isLoaded ctx = true /\ contextSize ctx = 2048%Z /\ numThreads ctx = 4%Z.
Proof.
  intros Hf. destruct (context_after _ _ _ _ Hf) as [Hinit | (p & Hin & ->)].
  - cbn in Hinit. rewrite um_find_new in Hinit. discriminate.
  - repeat split. exact Hin.
Qed.

(** X6. [nativeLoadModel] succeeds in every state a run within the range
    of the counter reaches: it returns true for every path, thread count
    and context size, registers a context for the path under the next
    handle, and [nativeIsModelLoaded] is true afterwards. *)
Theorem nativeLoadModel_succeeds (calls : list Call) (path : string)
    (nThreads nCtx : jint) :
  (Z.of_nat (List.length calls) < INT64_MAX)%Z ->
  let w := after calls initial_world in
  let w' := snd (LlamaInference_nativeLoadModel path nThreads nCtx w) in
  fst (LlamaInference_nativeLoadModel path nThreads nCtx w) = true /\
  um_find (g_next_handle w) (g_contexts w') = Some (ModelContext_new path) /\
  fst (LlamaInference_nativeIsModelLoaded w') = true.
Proof.
  intros Hlen w w'.
  destruct (issued_consecutive calls initial_world) as (_ & Hn & Hk);
    [cbn; lia | cbn [initial_world g_next_handle]; lia |].
  cbn [initial_world g_next_handle] in Hn. fold w in Hn.
  destruct (initModel_unfold w path) as (Hh & Hm & _).
  assert (Hw' : w' = snd (LlamaNative_initModel path w)).
  { subst w'. unfold LlamaInference_nativeLoadModel. apply snd_bind_ret. }
  assert (Hfind : um_find (g_next_handle w) (g_contexts w') = Some (ModelContext_new path)).
  { rewrite Hw', Hm, um_find_assign, Z.eqb_refl. reflexivity. }
  repeat split.
  - unfold LlamaInference_nativeLoadModel, bind, ret.
    destruct (LlamaNative_initModel path w) as [h0 w0] eqn:E. cbn [fst] in *.
    subst h0. apply negb_true_iff, Z.eqb_neq. lia.
  - exact Hfind.
  - unfold LlamaInference_nativeIsModelLoaded, contexts, bind, ret. cbn [fst].
    apply negb_true_iff, um_empty_false_iff.
    exists (g_next_handle w). rewrite Hfind. discriminate.
Qed.

(** ** The legacy observers *)

(** X7. [nativeIsModelLoaded] answers whether some handle is registered,
    and it leaves the state, log included, as it found it. *)
Theorem nativeIsModelLoaded_iff_registered (w : World) :
  snd (LlamaInference_nativeIsModelLoaded w) = w /\
  (fst (LlamaInference_nativeIsModelLoaded w) = true <->
   exists h, um_find h (g_contexts w) <> None).
Proof.
  split; [reflexivity|].
  unfold LlamaInference_nativeIsModelLoaded, contexts, bind, ret. cbn [fst].
  rewrite negb_true_iff. apply um_empty_false_iff.
Qed.


(** X9. [nativeGetModelInfo] returns the empty string when no context is
    registered; otherwise, in every state a run from the initial state
    reaches, it returns the status text of one of the paths the run
    loaded, with context size 2048 and 4 threads.  It leaves the state as
    it found it. *)
Theorem nativeGetModelInfo_shape (calls : list Call) :
  let w := after calls initial_world in
  snd (LlamaInference_nativeGetModelInfo w) = w /\
  ((um_empty (g_contexts w) = true /\
    fst (LlamaInference_nativeGetModelInfo w) = EmptyString) \/
   (um_empty (g_contexts w) = false /\
    exists path, In path (paths calls) /\
      fst (LlamaInference_nativeGetModelInfo w) =
        cstr "{`status`:`loaded`,`path`:`" ++ path ++
        cstr "`,`contextSize`:2048,`threads`:4}")).
Proof.
  intros w. split.
  - unfold_jni. destruct (um_empty (g_contexts w)); [reflexivity|].
    destruct (um_begin (g_contexts w)) as [[? ?]|]; reflexivity.
  - destruct (um_empty (g_contexts w)) eqn:He.
    + left. split; [reflexivity|]. unfold_jni. rewrite He. reflexivity.
    + right. split; [reflexivity|].
      destruct (um_begin (g_contexts w)) as [[h ctx]|] eqn:Hb.
      * pose proof (um_begin_find _ _ _ Hb) as Hf.
        destruct (context_after _ _ _ _ Hf) as [Hinit | (p & Hin & ->)].
        { cbn in Hinit. rewrite um_find_new in Hinit. discriminate. }
        exists p. split; [exact Hin|].
        unfold_jni. rewrite He, Hb. cbn [fst]. apply model_info_new.
      * apply um_empty_begin in Hb. congruence.
Qed.

(** X10. After [nativeUnloadModel] or [nativeCleanup], in whatever state
    they are called, nothing is loaded: [generate] answers every handle
    with the model-not-loaded string, [nativeIsModelLoaded] is false,
    [nativeGenerate] answers with the no-model string and
    [nativeGetModelInfo] with the empty string.  The counter is not reset,
    so the handles given out before are not given out again. *)
Theorem teardown_unloads_everything (w : World) (c : Call) :
  c = CallNativeUnloadModel \/ c = CallNativeCleanup ->
  let w' := snd (exec c w) in
  g_next_handle w' = g_next_handle w /\
  (forall h prompt n, fst (LlamaNative_generate h prompt n w') = invalid_context_response) /\
  fst (LlamaInference_nativeIsModelLoaded w') = false /\
  (forall prompt n t tp,
     fst (LlamaInference_nativeGenerate prompt n t tp w') = no_model_response) /\
  fst (LlamaInference_nativeGetModelInfo w') = EmptyString.
Proof.
  intros Hc w'.
  assert (Hg : g_contexts w' = um_clear (g_contexts w) /\
               g_next_handle w' = g_next_handle w).
  { subst w'. destruct Hc as [-> | ->].
    - exact (exec_globals CallNativeUnloadModel w).
    - exact (exec_globals CallNativeCleanup w). }
  destruct Hg as [Hm Hn].
  assert (He : um_empty (g_contexts w') = true) by (rewrite Hm; apply um_empty_clear).
  repeat split.
  - exact Hn.
  - intros h prompt n. apply generate_absent. rewrite Hm. apply um_find_clear.
  - unfold_jni. rewrite He. reflexivity.
  - intros prompt n t tp. unfold_jni. rewrite He. reflexivity.
  - unfold_jni. rewrite He. reflexivity.
Qed.

End BridgeMore.

(** ** Keywords and occurrences *)

Lemma starts_with_iff (needle s : string) :
  starts_with needle s = true <-> exists b, s = needle ++ b.
Proof.
  revert s. induction needle as [|c needle IH]; intros s; cbn [starts_with append].
  - split; [intros _; exists s; reflexivity | reflexivity].
  - destruct s as [|d s].
    + split; [discriminate | intros [b Hb]; discriminate].
    + rewrite andb_true_iff, IH. split.
      * intros [Hc [b ->]]. apply Ascii.eqb_eq in Hc as ->. exists b. reflexivity.
      * intros [b [= -> ->]]. split; [apply Ascii.eqb_refl | exists b; reflexivity].
Qed.

Lemma find_at_occurs (needle s : string) :
  forall i, (exists k, find_at needle s i = Some k) <-> occurs needle s.
Proof.
  induction s as [|c s IH]; intros i; cbn [find_at].
  - destruct (starts_with needle EmptyString) eqn:E.
    + split; [intros _ | intros _; eexists; reflexivity].
      apply starts_with_iff in E as [b Hb]. exists EmptyString, b. exact Hb.
    + split; [intros [k Hk]; discriminate|].
      intros (a & b & Hab). exfalso.
      destruct a as [|d a]; [|discriminate].
      assert (Hs : starts_with needle EmptyString = true)
        by (apply starts_with_iff; exists b; exact Hab).
      congruence.
  - destruct (starts_with needle (String c s)) eqn:E.
    + split; [intros _ | intros _; eexists; reflexivity].
      apply starts_with_iff in E as [b Hb]. exists EmptyString, b. exact Hb.
    + rewrite IH. split.
      * intros (a & b & ->). exists (String c a), b. reflexivity.
      * intros (a & b & Hab). destruct a as [|d a].
        -- exfalso. assert (Hs : starts_with needle (String c s) = true)
             by (apply starts_with_iff; exists b; exact Hab).
           congruence.
        -- injection Hab as -> ->. exists a, b. reflexivity.
Qed.

(** [s.find(needle) != npos] holds exactly when [needle] occurs in [s]. *)
Lemma contains_iff_occurs (s needle : string) :
  contains s needle = true <-> occurs needle s.
Proof.
  unfold contains, find. cbn [Nat.leb]. rewrite drop_0.
  rewrite <- (find_at_occurs needle s 0).
  destruct (find_at needle s 0) as [k|].
  - split; [intros _; exists k; reflexivity | reflexivity].
  - split; [discriminate | intros [k Hk]; discriminate].
Qed.

(** ** Prompts without letters *)

Lemma tolower_not_letter (c : ascii) : is_letter c = false -> tolower c = c.
Proof.
  unfold is_letter, tolower. cbv zeta.
  destruct ((65 <=? nat_of_ascii c)%nat && (nat_of_ascii c <=? 90)%nat);
    [discriminate | reflexivity].
Qed.

Lemma to_lower_no_letters (s : string) :
  all_chars (fun c => negb (is_letter c)) s = true -> to_lower s = s.
Proof.
  induction s as [|c s IH]; cbn [all_chars to_lower]; intros H.
  - reflexivity.
  - apply andb_prop in H as [Hc Hs]. apply negb_true_iff in Hc.
    rewrite (tolower_not_letter _ Hc), (IH Hs). reflexivity.
Qed.

(** A keyword that begins with a letter is not found in a text without
    letters. *)
Lemma contains_keyword_no_letters (s : string) (c : ascii) (k : string) :
  all_chars (fun c => negb (is_letter c)) s = true ->
  is_letter c = true ->
  contains s (String c k) = false.
Proof.
  intros Hs Hc. unfold contains, find. cbn [Nat.leb]. rewrite drop_0.
  assert (H : forall i, find_at (String c k) s i = None).
  { induction s as [|b s IH]; intros i; cbn [find_at starts_with].
    - reflexivity.
    - cbn [all_chars] in Hs. apply andb_prop in Hs as [Hb Hs].
      apply negb_true_iff in Hb.
      destruct (Ascii.eqb_spec c b) as [-> | _]; [congruence|].
      cbn [andb]. apply IH. exact Hs. }
  rewrite H. reflexivity.
Qed.

(** ** Letter case *)

Lemma tolower_idempotent (c : ascii) : tolower (tolower c) = tolower c.
Proof.
  destruct c as [[] [] [] [] [] [] [] []]; reflexivity.
Qed.

Lemma to_lower_idempotent (s : string) : to_lower (to_lower s) = to_lower s.
Proof.
  induction s as [|c s IH]; cbn [to_lower];
    [reflexivity | rewrite tolower_idempotent, IH; reflexivity].
Qed.

Lemma tolower_dquote (c : ascii) :
  Ascii.eqb dquote (tolower c) = Ascii.eqb dquote c.
Proof.
  destruct c as [[] [] [] [] [] [] [] []]; reflexivity.
Qed.

Lemma count_dquote_to_lower (s : string) :
  count_char dquote (to_lower s) = count_char dquote s.
Proof.
  induction s as [|c s IH]; cbn [to_lower count_char];
    [reflexivity | rewrite tolower_dquote, IH; reflexivity].
Qed.

(** ** The status text as JSON *)

Lemma model_info_shape (path : string) :
  model_info (ModelContext_new path) = render (model_info_tokens path).
Proof. reflexivity. Qed.

Lemma parse_value_2048_comma (f : nat) (rest : string) :
  parse_value (S f)
    (String "2" (String "0" (String "4" (String "8" (String "," rest))))) =
  Ok (JNumber "2048", String "," rest).
Proof. reflexivity. Qed.

Lemma parse_value_4_close (f : nat) (rest : string) :
  parse_value (S f) (String "4" (String "}" rest)) = Ok (JNumber "4", String "}" rest).
Proof. reflexivity. Qed.

Lemma model_info_parses (path : string) :
  all_chars plain_char path = true ->
  json_parse (model_info (ModelContext_new path)) =
  Ok (JObject [("status", JString "loaded");
               ("path", JString path);
               ("contextSize", JNumber "2048");
               ("threads", JNumber "4")]).
Proof.
  intros Hp. unfold json_parse. rewrite model_info_shape.
  pose proof (length_render (model_info_tokens path)) as Hlen.
  cbn [model_info_tokens List.length] in Hlen.
  destruct (length (render (model_info_tokens path))) as [|n]; [lia|].
  do 10 (destruct n as [|n]; [lia|]). clear Hlen.
  cbn [model_info_tokens render].
  rewrite parse_value_object.
  erewrite parse_members_comma; [| plain | apply parse_value_quoted; plain].
  erewrite parse_members_comma; [| plain | apply parse_value_quoted; plain].
  erewrite parse_members_comma; [| plain | apply parse_value_2048_comma].
  erewrite parse_members_close; [| plain | apply parse_value_4_close].
  reflexivity.
Qed.

(** The action tag of a reply whose title is free of backslashes and
    control characters is the tag of the rule the prompt matches. *)
Lemma classify_action_when_escape_free (p : string) :
  match title_of p with
  | Some t => all_chars escape_free t = true
  | None => True
  end ->
  action_of (classify p) = Some (action_name (matched_rule p)).
Proof.
  rewrite classify_by_rule. unfold title_of.
  assert (Hplain : forall dflt,
            count_char dquote dflt = 0 ->
            all_chars escape_free (extract_quoted p dflt) = true ->
            all_chars plain_char (extract_quoted p dflt) = true).
  { intros dflt Hd He. apply plain_of_escape_free; [|exact He].
    apply extract_quoted_no_quote. exact Hd. }
  unfold action_of.
  destruct (matched_rule p); intros Hfree.
  - rewrite (create_goal_response_parses _ (Hplain "New Goal" eq_refl Hfree)).
    reflexivity.
  - rewrite (create_task_response_parses _ (Hplain "New Task" eq_refl Hfree)).
    reflexivity.
  - vm_compute; reflexivity.
  - vm_compute; reflexivity.
  - rewrite (complete_task_response_parses _ (Hplain "task" eq_refl Hfree)).
    reflexivity.
  - vm_compute; reflexivity.
  - vm_compute; reflexivity.
  - vm_compute; reflexivity.
Qed.

(** ** Replies *)

Section RepliesMore.

Context {M : Type} {UM : UnorderedMap ModelContext M}.

(** X11. A prompt without a letter, the empty prompt among them, matches
    no rule: on a registered handle [generate] answers it with the default
    conversational reply. *)
Theorem letterless_prompt_default_reply (w : World) (h : jlong) (maxTokens : jint)
    (prompt : string) :
  um_find h (g_contexts w) <> None ->
  all_chars (fun c => negb (is_letter c)) prompt = true ->
  fst (LlamaNative_generate h prompt maxTokens w) = default_response.
Proof.
  intros Hvalid Hs. rewrite (generate_present _ _ _ _ Hvalid).
  unfold classify. cbv zeta. rewrite (to_lower_no_letters _ Hs).
  repeat match goal with
         | |- context [contains prompt (String ?c ?k)] =>
             rewrite (contains_keyword_no_letters prompt c k Hs eq_refl)
         end.
  reflexivity.
Qed.

(** X12. On a registered handle, a reply whose title holds no backslash
    and no control character is a response of the schema; its action is
    the tag of the rule the prompt matches, and for the three rules with a
    title its [data] carries the extracted title under the key of the
    rule. *)
Theorem generate_reply_conforms (w : World) (h : jlong) (maxTokens : jint)
    (prompt : string) :
  um_find h (g_contexts w) <> None ->
  match title_of prompt with
  | Some t => all_chars escape_free t = true
  | None => True
  end ->
  let reply := fst (LlamaNative_generate h prompt maxTokens w) in
  valid_response reply = true /\
  action_of reply = Some (action_name (matched_rule prompt)) /\
  match matched_rule prompt with
  | RuleCreateGoal =>
      data_field "goalTitle" reply = Some (JString (extract_quoted prompt "New Goal"))
  | RuleCreateTask =>
      data_field "taskTitle" reply = Some (JString (extract_quoted prompt "New Task"))
  | RuleCompleteTask =>
      data_field "taskTitle" reply = Some (JString (extract_quoted prompt "task"))
  | _ => True
  end.
Proof.
  intros Hvalid Hfree reply. subst reply.
  rewrite (generate_present _ _ _ _ Hvalid).
  destruct (classify_valid_when_escape_free prompt Hfree) as [Hv Hd].
  split; [exact Hv|]. split; [|exact Hd].
  apply classify_action_when_escape_free. exact Hfree.
Qed.

(** X13. On a registered handle the reply is the create-goal template
    exactly when the lowercased prompt contains [create] and contains
    [goal], anywhere and in any order, also inside longer words and
    whatever other keywords the prompt holds. *)
Theorem create_goal_iff_keywords (w : World) (h : jlong) (maxTokens : jint)
    (prompt : string) :
  um_find h (g_contexts w) <> None ->
  ((exists title,
      fst (LlamaNative_generate h prompt maxTokens w) = create_goal_response title) <->
   (occurs "create" (to_lower prompt) /\ occurs "goal" (to_lower prompt))).
Proof.
  intros Hvalid. rewrite (generate_present _ _ _ _ Hvalid).
  rewrite <- !contains_iff_occurs, <- andb_true_iff.
  unfold classify. cbv zeta.
  destruct (contains (to_lower prompt) "create" && contains (to_lower prompt) "goal").
  - split; [reflexivity | intros _; eexists; reflexivity].
  - split; [|discriminate].
    intros [title Ht]. exfalso. revert Ht.
    unfold create_goal_response, create_task_response, complete_task_response.
    generalize (extract_quoted prompt "New Task").
    generalize (extract_quoted prompt "task").
    intros t1 t2.
    repeat match goal with
           | |- context [if ?b then _ else _] => destruct b
           end; cbn; discriminate.
Qed.

(** X14. The rule a prompt matches does not depend on the case of its
    letters: every prompt and its lowercased form match the same rule.
    On a registered handle a prompt with fewer than two double quotes gets
    the same reply as its lowercased form. *)
Theorem lowercasing_keeps_reply (w : World) (h : jlong) (maxTokens : jint)
    (prompt : string) :
  matched_rule (to_lower prompt) = matched_rule prompt /\
  (um_find h (g_contexts w) <> None ->
   count_char dquote prompt < 2 ->
   fst (LlamaNative_generate h (to_lower prompt) maxTokens w) =
     fst (LlamaNative_generate h prompt maxTokens w)).
Proof.
  assert (Hrule : matched_rule (to_lower prompt) = matched_rule prompt).
  { unfold matched_rule, mentions. rewrite to_lower_idempotent. reflexivity. }
  split; [exact Hrule|]. intros Hvalid Hq.
  rewrite !(generate_present _ _ _ _ Hvalid), !classify_by_rule, Hrule.
  assert (Hq' : count_char dquote (to_lower prompt) < 2)
    by (rewrite count_dquote_to_lower; exact Hq).
  rewrite !(extract_quoted_default _ _ Hq), !(extract_quoted_default _ _ Hq').
  reflexivity.
Qed.

(** X15. When the paths a run loaded hold only characters that may stand
    unescaped in a JSON string and a context is registered at its end,
    [nativeGetModelInfo] returns a JSON object with the members [status]
    ([loaded]), [path] (one of the paths of the run), [contextSize] (2048)
    and [threads] (4). *)
Theorem nativeGetModelInfo_json (calls : list Call) :
  (forall p, In p (paths calls) -> all_chars plain_char p = true) ->
  um_empty (g_contexts (after calls initial_world)) = false ->
  exists path,
    In path (paths calls) /\
    json_parse (fst (LlamaInference_nativeGetModelInfo (after calls initial_world))) =
    Ok (JObject [("status", JString "loaded");
                 ("path", JString path);
                 ("contextSize", JNumber "2048");
                 ("threads", JNumber "4")]).
Proof.
  intros Hplain He.
  destruct (um_begin (g_contexts (after calls initial_world))) as [[h ctx]|] eqn:Hb.
  - pose proof (um_begin_find _ _ _ Hb) as Hf.
    destruct (context_after _ _ _ _ Hf) as [Hinit | (p & Hin & ->)].
    { cbn in Hinit. rewrite um_find_new in Hinit. discriminate. }
    exists p. split; [exact Hin|].
    unfold LlamaInference_nativeGetModelInfo, contexts, bind, ret.
    rewrite He, Hb. cbn [fst]. apply model_info_parses, Hplain, Hin.
  - apply um_empty_begin in Hb. congruence.
Qed.

End RepliesMore.

(** ** What the replies never hold and what the observers never touch *)

Section FrameMore.

Context {M : Type} {UM : UnorderedMap ModelContext M}.

(** X16. On a registered handle every reply is one of five fixed strings
    or one of the three templates filled with a title, and a title never
    holds a double quote; a title taken from the prompt is at least two
    characters shorter than the prompt. *)
Theorem reply_title_quote_free (w : World) (h : jlong) (maxTokens : jint)
    (prompt : string) :
  um_find h (g_contexts w) <> None ->
  let reply := fst (LlamaNative_generate h prompt maxTokens w) in
  match title_of prompt with
  | Some t =>
      count_char dquote t = 0 /\
      (2 <= count_char dquote prompt -> length t + 2 <= length prompt) /\
      (reply = create_goal_response t \/ reply = create_task_response t \/
       reply = complete_task_response t)
  | None =>
      In reply [list_response; help_response; delete_response;
                progress_response; default_response]
  end.
Proof.
  intros Hvalid reply. subst reply.
  rewrite (generate_present _ _ _ _ Hvalid), classify_by_rule. unfold title_of.
  assert (Hlen : forall dflt, 2 <= count_char dquote prompt ->
            length (extract_quoted prompt dflt) + 2 <= length prompt).
  { intros dflt Hge.
    destruct (two_quotes_split prompt Hge) as (a & t & rest & -> & Ha & Ht).
    rewrite (extract_quoted_between a t rest dflt Ha Ht).
    rewrite length_app. cbn [length]. rewrite length_app. cbn [length]. lia. }
  destruct (matched_rule prompt).
  - split; [apply extract_quoted_no_quote; reflexivity|].
    split; [apply Hlen | left; reflexivity].
  - split; [apply extract_quoted_no_quote; reflexivity|].
    split; [apply Hlen | right; left; reflexivity].
  - left; reflexivity.
  - right; left; reflexivity.
  - split; [apply extract_quoted_no_quote; reflexivity|].
    split; [apply Hlen | right; right; reflexivity].
  - right; right; left; reflexivity.
  - right; right; right; left; reflexivity.
  - right; right; right; right; left; reflexivity.
Qed.

(** X17. Only [initModel], [nativeLoadModel], [freeModel],
    [nativeUnloadModel] and [nativeCleanup] write to the handle table or
    to the counter: every other entry point, [generate] and the legacy
    generation and query calls among them, leaves both as it found them. *)
Theorem observers_leave_registry (w : World) (c : Call) :
  changes_registry c = false ->
  g_contexts (snd (exec c w)) = g_contexts w /\
  g_next_handle (snd (exec c w)) = g_next_handle w.
Proof.
  intros Hc. pose proof (exec_globals c w) as H.
  destruct c; cbn [changes_registry] in Hc; try discriminate; exact H.
Qed.

End FrameMore.

(** ** The further properties on the list implementation *)

Lemma handles_are_consecutive_witness :
  let calls := [CallInitModel "a.gguf"; CallNativeUnloadModel;
                CallNativeLoadModel "b.gguf" 8%Z 512%Z; CallInitModel "c.gguf"] in
  (Z.of_nat (List.length calls) < INT64_MAX)%Z /\
  issued calls start = [1%Z; 2%Z; 3%Z] /\
  g_next_handle (after calls start) = 4%Z.
Proof.
  intros calls.
  assert (H : (Z.of_nat (List.length calls) < INT64_MAX)%Z) by (vm_compute; reflexivity).
  split; [exact H|].
  destruct (handles_are_consecutive (M := FrontMap ModelContext) calls H) as (H1 & H2 & _).
  split; [exact H1 | exact H2].
Defined.

Lemma initModel_freeModel_round_trip_witness :
  let calls := [CallInitModel "a.gguf"] in
  (Z.of_nat (List.length calls) + 1 < INT64_MAX)%Z /\
  g_next_handle
    (snd (LlamaNative_freeModel
            (fst (LlamaNative_initModel "b.gguf" (after calls start)))
            (snd (LlamaNative_initModel "b.gguf" (after calls start))))) = 3%Z.
Proof.
  intros calls.
  assert (H : (Z.of_nat (List.length calls) + 1 < INT64_MAX)%Z) by (vm_compute; reflexivity).
  split; [exact H|].
  apply (initModel_freeModel_round_trip (M := FrontMap ModelContext) calls "b.gguf" H).
Defined.

Lemma registered_contexts_are_default_witness :
  let calls := [CallNativeLoadModel "b.gguf" 8%Z 512%Z] in
  um_find 1%Z (g_contexts (after calls start)) = Some (ModelContext_new "b.gguf") /\
  contextSize (ModelContext_new "b.gguf") = 2048%Z /\
  numThreads (ModelContext_new "b.gguf") = 4%Z.
Proof.
  intros calls.
  assert (H : um_find 1%Z (g_contexts (after calls start)) = Some (ModelContext_new "b.gguf"))
    by (vm_compute; reflexivity).
  split; [exact H|].
  apply (registered_contexts_are_default calls 1%Z (ModelContext_new "b.gguf") H).
Defined.

Lemma nativeLoadModel_succeeds_witness :
  let calls := [CallInitModel "a.gguf"; CallFreeModel 1%Z] in
  (Z.of_nat (List.length calls) < INT64_MAX)%Z /\
  fst (LlamaInference_nativeLoadModel "b.gguf" 8%Z 512%Z (after calls start)) = true.
Proof.
  intros calls.
  assert (H : (Z.of_nat (List.length calls) < INT64_MAX)%Z) by (vm_compute; reflexivity).
  split; [exact H|].
  destruct (nativeLoadModel_succeeds (M := FrontMap ModelContext)
              calls "b.gguf" 8%Z 512%Z H) as [Ht _].
  exact Ht.
Defined.


Lemma teardown_unloads_everything_witness :
  (CallNativeCleanup = CallNativeUnloadModel \/ CallNativeCleanup = CallNativeCleanup) /\
  fst (LlamaInference_nativeIsModelLoaded (snd (exec CallNativeCleanup two_loaded))) = false.
Proof.
  assert (H : CallNativeCleanup = CallNativeUnloadModel \/
              CallNativeCleanup = CallNativeCleanup) by (right; reflexivity).
  split; [exact H|].
  apply (teardown_unloads_everything two_loaded CallNativeCleanup H).
Defined.

Lemma letterless_prompt_default_reply_witness :
  um_find 1%Z (g_contexts loaded) <> None /\
  all_chars (fun c => negb (is_letter c)) "2 + 2 = ?" = true /\
  fst (LlamaNative_generate 1%Z "2 + 2 = ?" 64%Z loaded) = default_response.
Proof.
  assert (H : all_chars (fun c => negb (is_letter c)) "2 + 2 = ?" = true)
    by (vm_compute; reflexivity).
  split; [exact loaded_valid|]. split; [exact H|].
  apply (letterless_prompt_default_reply loaded 1%Z 64%Z "2 + 2 = ?" loaded_valid H).
Defined.

Lemma add_milk_title_escape_free :
  match title_of (cstr "add task `buy milk`") with
  | Some t => all_chars escape_free t = true
  | None => True
  end.
Proof. vm_compute. reflexivity. Defined.

Lemma generate_reply_conforms_witness :
  um_find 1%Z (g_contexts loaded) <> None /\
  valid_response
    (fst (LlamaNative_generate 1%Z (cstr "add task `buy milk`") 64%Z loaded)) = true.
Proof.
  split; [exact loaded_valid|].
  destruct (generate_reply_conforms loaded 1%Z 64%Z (cstr "add task `buy milk`")
              loaded_valid add_milk_title_escape_free) as [Hv _].
  exact Hv.
Defined.

Lemma create_goal_iff_keywords_witness :
  um_find 1%Z (g_contexts loaded) <> None /\
  ((exists title,
      fst (LlamaNative_generate 1%Z "Delete the GOALS I created" 64%Z loaded) =
        create_goal_response title) <->
   (occurs "create" (to_lower "Delete the GOALS I created") /\
    occurs "goal" (to_lower "Delete the GOALS I created"))).
Proof.
  split; [exact loaded_valid|].
  apply (create_goal_iff_keywords loaded 1%Z 64%Z "Delete the GOALS I created" loaded_valid).
Defined.

Lemma lowercasing_keeps_reply_witness :
  um_find 1%Z (g_contexts loaded) <> None /\
  count_char dquote "HELP me" < 2 /\
  matched_rule (to_lower (cstr "Add TASK `Buy Milk`")) =
    matched_rule (cstr "Add TASK `Buy Milk`") /\
  fst (LlamaNative_generate 1%Z (to_lower "HELP me") 64%Z loaded) =
    fst (LlamaNative_generate 1%Z "HELP me" 64%Z loaded).
Proof.
  assert (H : count_char dquote "HELP me" < 2) by (vm_compute; lia).
  split; [exact loaded_valid|]. split; [exact H|].
  split.
  - destruct (lowercasing_keeps_reply loaded 1%Z 64%Z (cstr "Add TASK `Buy Milk`"))
      as [Hrule _].
    exact Hrule.
  - destruct (lowercasing_keeps_reply loaded 1%Z 64%Z "HELP me") as [_ Hreply].
    exact (Hreply loaded_valid H).
Defined.

Lemma two_paths_plain :
  forall p, In p (paths [CallInitModel "a.gguf"; CallInitModel "b.gguf"]) ->
            all_chars plain_char p = true.
Proof.
  intros p [<- | [<- | []]]; reflexivity.
Defined.

Lemma nativeGetModelInfo_json_witness :
  um_empty (g_contexts two_loaded) = false /\
  exists path,
    In path (paths [CallInitModel "a.gguf"; CallInitModel "b.gguf"]) /\
    json_parse (fst (LlamaInference_nativeGetModelInfo two_loaded)) =
    Ok (JObject [("status", JString "loaded");
                 ("path", JString path);
                 ("contextSize", JNumber "2048");
                 ("threads", JNumber "4")]).
Proof.
  assert (H : um_empty (g_contexts two_loaded) = false) by (vm_compute; reflexivity).
  split; [exact H|].
  apply (nativeGetModelInfo_json (M := FrontMap ModelContext)
           [CallInitModel "a.gguf"; CallInitModel "b.gguf"] two_paths_plain H).
Defined.

Lemma reply_title_quote_free_witness :
  um_find 1%Z (g_contexts loaded) <> None /\
  In (fst (LlamaNative_generate 1%Z "help" 64%Z loaded))
     [list_response; help_response; delete_response; progress_response;
      default_response].
Proof.
  split; [exact loaded_valid|].
  apply (reply_title_quote_free loaded 1%Z 64%Z "help" loaded_valid).
Defined.

Lemma observers_leave_registry_witness :
  changes_registry (CallGenerate 1%Z "help" 64%Z) = false /\
  g_contexts (snd (exec (CallGenerate 1%Z "help" 64%Z) two_loaded)) =
    g_contexts two_loaded.
Proof.
  assert (H : changes_registry (CallGenerate 1%Z "help" 64%Z) = false) by reflexivity.
  split; [exact H|].
  apply (observers_leave_registry two_loaded (CallGenerate 1%Z "help" 64%Z) H).
Defined.
